(** * Express middleware tracing (packages/tracing/src/integrations/express.ts)

    A shallow embedding of the Express integration: the arity-based
    middleware wrapper [wrap], the argument transformation [wrapUseArgs],
    the patch of [app.use] done by [instrumentMiddlewares] and the
    integration's [setupOnce].

    JavaScript functions are first-class and effectful.  Function values
    are closures in defunctionalised form (one constructor per function
    expression of the source, holding the captured variables), their
    bodies are programs of a small free monad over the operations of the
    collaborators (transaction, span, response emitter, logger, app), and
    an interpreter with a call-depth budget runs them over an explicit
    world: a heap of response and application objects and the trace of
    calls made to the collaborators. *)

From stdpp Require Import gmap strings list pretty.

Set Default Proof Using "Type".

(** ** Values *)

Definition loc := nat.
Definition tx_id := nat.
Definition span_id := nat.
Definition fn_id := nat.

(** JavaScript values, as far as the integration tells them apart:
    [typeof v === 'function'], [Array.isArray v], property access on
    [undefined] and [null], and objects held by reference. *)
#[warnings="-register-all"]
Inductive value : Type :=
| VUndefined
| VNull
| VBool (b : bool)
| VNumber (z : Z)
| VString (s : string)
| VError (message : string)
| VTypeError
| VArray (elems : list value)
| VObject (l : loc)
| VFunction (c : closure)

(** One constructor per function expression of express.ts, with its
    captured variables; [User] is a function of the application. *)
with closure : Type :=
| User (id : fn_id)
| Wrapped2 (fn : closure)
| Wrapped3 (fn : closure)
| Wrapped4 (fn : closure)
| SubstituteNext (span : option span_id) (next : value)
| FinishListener (span : span_id)
| PatchedUse (originalAppUse : value).

(** ** Operations of the collaborators *)

Inductive effect : Type -> Type :=
| ReadTransaction (l : loc) : effect (option tx_id)
| WriteTransaction (l : loc) (t : option tx_id) : effect unit
| StartChild (t : tx_id) (description op : string) : effect span_id
| SpanFinish (s : span_id) : effect unit
| Once (l : loc) (ev : string) (listener : value) : effect unit
| ListenerIds (l : loc) (ev : string) : effect (list nat)
| TakeListener (l : loc) (id : nat) : effect (option value)
| LoggerError (msg : string) : effect unit
| ReadUse (l : loc) : effect value
| WriteUse (l : loc) (v : value) : effect unit
| Output (v : value) : effect unit.

(** Function bodies: return, throw, call a function value with a [this]
    and an argument list, or perform an operation. *)
Inductive prog : Type :=
| Ret (v : value)
| Throw (v : value)
| Call (f this : value) (args : list value) (k : value -> prog)
| Do {X : Type} (e : effect X) (k : X -> prog).

Fixpoint bind (p : prog) (q : value -> prog) : prog :=
  match p with
  | Ret v => q v
  | Throw v => Throw v
  | Call f this args k => Call f this args (fun v => bind (k v) q)
  | Do e k => Do e (fun x => bind (k x) q)
  end.

Definition andThen (p q : prog) : prog := bind p (fun _ => q).

(** A function of the application: its [name], its [length] (declared
    parameter count) and its body. *)
Record user_fn := {
  fn_name : string;
  fn_length : nat;
  fn_body : value -> list value -> prog
}.

(** ** The world *)

Inductive event : Type :=
| EvStartChild (t : tx_id) (description op : string) (s : span_id)
| EvSpanFinish (s : span_id)
| EvLoggerError (msg : string)
| EvOutput (v : value).

(** A response: the optional [__sentry_transaction] and the one-time
    listeners registered on it, oldest first, each with its identity. *)
Record response := {
  sentry_transaction : option tx_id;
  once_listeners : list (nat * (string * value))
}.

Inductive object : Type :=
| ObjResponse (r : response)
| ObjApplication (use : value).

Record world := {
  heap : gmap loc object;
  events : list event;
  next_span : span_id;
  next_listener : nat
}.

Definition log (e : event) (w : world) : world :=
  {| heap := heap w; events := events w ++ [e];
     next_span := next_span w; next_listener := next_listener w |}.

Definition set_heap (h : gmap loc object) (w : world) : world :=
  {| heap := h; events := events w;
     next_span := next_span w; next_listener := next_listener w |}.

Definition lookup_response (l : loc) (w : world) : option response :=
  match heap w !! l with
  | Some (ObjResponse r) => Some r
  | _ => None
  end.

Definition listener_on (ev : string) (e : nat * (string * value)) : bool :=
  bool_decide (e.2.1 = ev).

Definition listener_is (id : nat) (e : nat * (string * value)) : bool :=
  bool_decide (e.1 = id).

Definition find_listener (id : nat) (ls : list (nat * (string * value)))
  : option value :=
  match List.find (listener_is id) ls with
  | Some e => Some e.2.2
  | None => None
  end.

Definition remove_listener (id : nat) (ls : list (nat * (string * value)))
  : list (nat * (string * value)) :=
  List.filter (fun e => negb (listener_is id e)) ls.

(** Modelled from the spec: the collaborators of section 6, which are not
    part of express.ts.  [Transaction.startChild] returns a new span and
    [Span.finish] completes it, both recorded in the trace; the response
    offers "a one-shot finish event subscription mechanism": [once]
    appends a listener, and firing an event takes each listener out of
    the table before it runs it; the logger records its message; [use]
    is a mutable property of the application object. *)
Definition handle {X : Type} (e : effect X) (w : world) : X * world :=
  match e in effect X return X * world with
  | ReadTransaction l =>
      (match lookup_response l w with
       | Some r => sentry_transaction r
       | None => None
       end, w)
  | WriteTransaction l t =>
      (tt, match lookup_response l w with
           | Some r =>
               set_heap (<[l := ObjResponse
                  {| sentry_transaction := t;
                     once_listeners := once_listeners r |}]> (heap w)) w
           | None => w
           end)
  | StartChild t description op =>
      (next_span w,
       {| heap := heap w;
          events := events w ++ [EvStartChild t description op (next_span w)];
          next_span := S (next_span w);
          next_listener := next_listener w |})
  | SpanFinish s => (tt, log (EvSpanFinish s) w)
  | Once l ev listener =>
      (tt, match lookup_response l w with
           | Some r =>
               {| heap := <[l := ObjResponse
                    {| sentry_transaction := sentry_transaction r;
                       once_listeners :=
                         once_listeners r ++ [(next_listener w, (ev, listener))]
                    |}]> (heap w);
                  events := events w;
                  next_span := next_span w;
                  next_listener := S (next_listener w) |}
           | None => w
           end)
  | ListenerIds l ev =>
      (match lookup_response l w with
       | Some r => fst <$> List.filter (listener_on ev) (once_listeners r)
       | None => []
       end, w)
  | TakeListener l id =>
      match lookup_response l w with
      | Some r =>
          (find_listener id (once_listeners r),
           set_heap (<[l := ObjResponse
              {| sentry_transaction := sentry_transaction r;
                 once_listeners := remove_listener id (once_listeners r) |}]>
              (heap w)) w)
      | None => (None, w)
      end
  | LoggerError msg => (tt, log (EvLoggerError msg) w)
  | ReadUse l =>
      (match heap w !! l with
       | Some (ObjApplication use) => use
       | _ => VUndefined
       end, w)
  | WriteUse l v =>
      (tt, match heap w !! l with
           | Some (ObjApplication _) =>
               set_heap (<[l := ObjApplication v]> (heap w)) w
           | _ => w
           end)
  | Output v => (tt, log (EvOutput v) w)
  end.

(** [emitter.emit(ev)]: the listeners registered for [ev] when the event
    fires are run in order, each one only if it is still registered, and
    it is unregistered before it runs. *)
Fixpoint fire (l : loc) (ids : list nat) : prog :=
  match ids with
  | [] => Ret VUndefined
  | id :: rest =>
      Do (TakeListener l id) (fun o =>
        match o with
        | Some f => Call f (VObject l) [] (fun _ => fire l rest)
        | None => fire l rest
        end)
  end.

Definition emit (l : loc) (ev : string) : prog :=
  Do (ListenerIds l ev) (fire l).

(** ** express.ts *)

Definition arg (i : nat) (args : list value) : value :=
  nth i args VUndefined.

(** [res.__sentry_transaction]: a TypeError on [undefined] and [null],
    the property of a response, [undefined] on anything else. *)
Definition get_sentry_transaction (res : value)
    (k : option tx_id -> prog) : prog :=
  match res with
  | VUndefined | VNull => Throw VTypeError
  | VObject l => Do (ReadTransaction l) k
  | _ => k None
  end.

(** [res.once('finish', listener)]. *)
Definition res_once (res : value) (ev : string) (listener : value)
    (k : prog) : prog :=
  match res with
  | VObject l => Do (Once l ev listener) (fun _ => k)
  | _ => Throw VTypeError
  end.

(** [transaction && transaction.startChild({ description, op })]. *)
Definition start_child_if (transaction : option tx_id)
    (description op : string) (k : option span_id -> prog) : prog :=
  match transaction with
  | Some t => Do (StartChild t description op) (fun s => k (Some s))
  | None => k None
  end.

(** [if (span) { span.finish(); }]. *)
Definition finish_if (span : option span_id) (k : prog) : prog :=
  match span with
  | Some s => Do (SpanFinish s) (fun _ => k)
  | None => k
  end.

Definition unsupported_arity (arrity : nat) : value :=
  VError ("Express middleware takes 2-4 arguments. Got: " +:+ pretty arrity).

(** ** Running programs *)

Inductive outcome : Type :=
| Returned (v : value)
| Threw (v : value)
| OutOfFuel.

Definition applier := closure -> value -> list value -> world -> outcome * world.

(** [run ap p w] runs [p] from [w], calling functions through [ap].
    Calling what is not a function is a TypeError. *)
Fixpoint run (ap : applier) (p : prog) (w : world) : outcome * world :=
  match p with
  | Ret v => (Returned v, w)
  | Throw v => (Threw v, w)
  | Call f this args k =>
      match f with
      | VFunction c =>
          match ap c this args w with
          | (Returned v, w') => run ap (k v) w'
          | r => r
          end
      | _ => (Threw VTypeError, w)
      end
  | Do e k => let '(x, w') := handle e w in run ap (k x) w'
  end.

(** ** Vocabulary of the statements *)

(** A call whose value is discarded: [fn.call(...)] as a statement of a
    function that then returns [undefined]. *)
Definition void (r : outcome * world) : outcome * world :=
  match r with
  | (Returned _, w) => (Returned VUndefined, w)
  | _ => r
  end.

Definition transaction_on (l : loc) (w : world) : option tx_id :=
  (handle (ReadTransaction l) w).1.

Definition listeners_on (l : loc) (w : world) : list (nat * (string * value)) :=
  match lookup_response l w with
  | Some r => once_listeners r
  | None => []
  end.

(** The world once [transaction.startChild] has returned span [next_span w]. *)
Definition span_opened (t : tx_id) (description : string) (w : world) : world :=
  (handle (StartChild t description "middleware") w).2.

(** The world once [res.once('finish', () => span.finish())] has returned. *)
Definition listener_registered (l : loc) (s : span_id) (w : world) : world :=
  (handle (Once l "finish" (VFunction (FinishListener s))) w).2.

(** The span a wrapped callable holds while the original runs, and the
    world in which the original starts: the one of the invocation when the
    response carries no transaction; otherwise the span is open and, for
    arity 2, the "finish" listener is registered. *)
Definition span_for (l : loc) (w : world) : option span_id :=
  match transaction_on l w with
  | Some _ => Some (next_span w)
  | None => None
  end.

Definition entered (arrity : nat) (description : string) (l : loc)
    (w : world) : world :=
  match transaction_on l w with
  | Some t =>
      match arrity with
      | 2 => listener_registered l (next_span w) (span_opened t description w)
      | _ => span_opened t description w
      end
  | None => w
  end.

(** Where the response sits among the parameters. *)
Definition response_position (arrity : nat) : nat :=
  match arrity with 4 => 2 | _ => 1 end.

Definition supported (arrity : nat) : bool :=
  match arrity with 2 | 3 | 4 => true | _ => false end.

(** How many times [span.finish()] was called on span [s]. *)
Definition finishes (s : span_id) (e : event) : bool :=
  match e with
  | EvSpanFinish s' => bool_decide (s' = s)
  | _ => false
  end.

Definition count_finish (s : span_id) (evs : list event) : nat :=
  length (List.filter (finishes s) evs).

(** [emitter.emit(ev)], [k] times in a row. *)
Fixpoint emit_times (k : nat) (l : loc) (ev : string) : prog :=
  match k with
  | 0 => Ret VUndefined
  | S k' => andThen (emit l ev) (emit_times k' l ev)
  end.

(** The span that a listener registered by the arity-2 wrapper finishes. *)
Definition closing_span (e : nat * (string * value)) : option span_id :=
  match e.2.2 with
  | VFunction (FinishListener s) => Some s
  | _ => None
  end.

(** Every listener for [ev] in the table was registered by the wrapper. *)
Definition wrapper_listeners (ev : string)
    (ls : list (nat * (string * value))) : Prop :=
  Forall (fun e => listener_on ev e = true -> is_Some (closing_span e)) ls.

Definition spans_closed_by (ev : string)
    (ls : list (nat * (string * value))) : list span_id :=
  omap closing_span (List.filter (listener_on ev) ls).

(** How many listeners for [ev] in the table finish span [s]. *)
Definition registrations (s : span_id) (ev : string)
    (ls : list (nat * (string * value))) : nat :=
  length (List.filter (fun s' => bool_decide (s' = s)) (spans_closed_by ev ls)).

(** ** A sample application *)

Module Sample.

Definition handler : user_fn :=
  {| fn_name := "handler"; fn_length := 2;
     fn_body := fun _ _ =>
       Do (Output (VString "hello")) (fun _ => Ret (VNumber 7)) |}.

Definition mw : user_fn :=
  {| fn_name := "mw"; fn_length := 3;
     fn_body := fun this args =>
       Call (arg 2 args) this [VNumber 1; VNumber 2]
         (fun _ => Ret (VNumber 42)) |}.

Definition twice : user_fn :=
  {| fn_name := "twice"; fn_length := 3;
     fn_body := fun this args =>
       Call (arg 2 args) this [] (fun _ => Call (arg 2 args) this [] Ret) |}.

Definition proceed : user_fn :=
  {| fn_name := "proceed"; fn_length := 0;
     fn_body := fun this args =>
       Do (Output (VArray (this :: args))) (fun _ => Ret VUndefined) |}.

Definition use : user_fn :=
  {| fn_name := "use"; fn_length := 1;
     fn_body := fun this args =>
       Do (Output (VArray args)) (fun _ => Ret this) |}.

Definition unary : user_fn :=
  {| fn_name := "unary"; fn_length := 1;
     fn_body := fun _ _ => Ret VUndefined |}.

Definition onError : user_fn :=
  {| fn_name := "onError"; fn_length := 4;
     fn_body := fun this args => Call (arg 3 args) this [arg 0 args] Ret |}.

Definition echo : user_fn :=
  {| fn_name := "echo"; fn_length := 3;
     fn_body := fun this args =>
       Do (Output (VArray (this :: args))) (fun _ => Ret VUndefined) |}.

Definition fns (id : fn_id) : user_fn :=
  match id with
  | 0 => handler
  | 1 => mw
  | 2 => twice
  | 3 => proceed
  | 4 => use
  | 5 => unary
  | 6 => onError
  | _ => echo
  end.

(** Response 0 carries transaction 7, response 1 carries none, and
    object 2 is the application. *)
Definition w0 : world :=
  {| heap :=
       <[0 := ObjResponse {| sentry_transaction := Some 7; once_listeners := [] |}]>
      (<[1 := ObjResponse {| sentry_transaction := None; once_listeners := [] |}]>
      (<[2 := ObjApplication (VFunction (User 4))]> ∅));
     events := [];
     next_span := 0;
     next_listener := 0 |}.

(** The world after the wrapped [handler] ran on response 0. *)
Definition w1 : world :=
  {| heap :=
       <[0 := ObjResponse
          {| sentry_transaction := Some 7;
             once_listeners := [(0, ("finish", VFunction (FinishListener 0)))] |}]>
         (heap w0);
     events := [EvStartChild 7 "handler" "middleware" 0;
                EvOutput (VString "hello")];
     next_span := 1;
     next_listener := 1 |}.

Definition self : value := VString "self".
Definition req : value := VString "req".

End Sample.

Section Express.

(** The functions of the application. *)
Variable user : fn_id -> user_fn.

(** [fn.length] and [fn.name]; the function expressions of express.ts
    are anonymous, and a [this] parameter does not count. *)
Definition closure_length (c : closure) : nat :=
  match c with
  | User id => fn_length (user id)
  | Wrapped2 _ => 2
  | Wrapped3 _ => 3
  | Wrapped4 _ => 4
  | SubstituteNext _ _ => 0
  | FinishListener _ => 0
  | PatchedUse _ => 0
  end.

Definition closure_name (c : closure) : string :=
  match c with
  | User id => fn_name (user id)
  | _ => ""
  end.

(** [wrap(fn)]: the replacement, or the error thrown. *)
Definition wrap (fn : closure) : value + closure :=
  let arrity := closure_length fn in
  match arrity with
  | 2 => inr (Wrapped2 fn)
  | 3 => inr (Wrapped3 fn)
  | 4 => inr (Wrapped4 fn)
  | _ => inl (unsupported_arity arrity)
  end.

(** [Array.prototype.map] with a callback that may throw: elements are
    visited in order and the first error ends the traversal. *)
Fixpoint map_throwing (f : value -> value + value) (l : list value)
  : value + list value :=
  match l with
  | [] => inr []
  | x :: rest =>
      match f x with
      | inl e => inl e
      | inr y =>
          match map_throwing f rest with
          | inl e => inl e
          | inr ys => inr (y :: ys)
          end
      end
  end.

Definition wrap_value (fn : closure) : value + value :=
  match wrap fn with
  | inl e => inl e
  | inr c => inr (VFunction c)
  end.

(** The callback of the inner [arg.map]. *)
Definition wrap_element (a : value) : value + value :=
  match a with
  | VFunction fn => wrap_value fn
  | _ => inr a
  end.

(** The callback of the outer [map]. *)
Definition wrap_argument (arg : value) : value + value :=
  match arg with
  | VFunction fn => wrap_value fn
  | VArray elems =>
      match map_throwing wrap_element elems with
      | inl e => inl e
      | inr elems' => inr (VArray elems')
      end
  | _ => inr arg
  end.

Definition wrapUseArgs (args : list value) : value + list value :=
  map_throwing wrap_argument args.

(** The body of each function expression, given [this] and [arguments]. *)
Definition code (c : closure) (this : value) (args : list value) : prog :=
  match c with
  | User id => fn_body (user id) this args
  | Wrapped2 fn =>
      let res := arg 1 args in
      get_sentry_transaction res (fun transaction =>
        match transaction with
        | Some t =>
            Do (StartChild t (closure_name fn) "middleware") (fun span =>
            res_once res "finish" (VFunction (FinishListener span))
              (Call (VFunction fn) this args Ret))
        | None => Call (VFunction fn) this args Ret
        end)
  | Wrapped3 fn =>
      let req := arg 0 args in
      let res := arg 1 args in
      let next := arg 2 args in
      get_sentry_transaction res (fun transaction =>
        start_child_if transaction (closure_name fn) "middleware" (fun span =>
          Call (VFunction fn) this
            [req; res; VFunction (SubstituteNext span next)]
            (fun _ => Ret VUndefined)))
  | Wrapped4 fn =>
      let err := arg 0 args in
      let req := arg 1 args in
      let res := arg 2 args in
      let next := arg 3 args in
      get_sentry_transaction res (fun transaction =>
        start_child_if transaction (closure_name fn) "middleware" (fun span =>
          Call (VFunction fn) this
            [err; req; res; VFunction (SubstituteNext span next)]
            (fun _ => Ret VUndefined)))
  | SubstituteNext span next =>
      finish_if span (Call next this args Ret)
  | FinishListener span =>
      Do (SpanFinish span) (fun _ => Ret VUndefined)
  | PatchedUse originalAppUse =>
      match originalAppUse with
      | VUndefined | VNull => Throw VTypeError
      | _ =>
          match wrapUseArgs args with
          | inl e => Throw e
          | inr args' => Call originalAppUse this args' Ret
          end
      end
  end.

(** [instrumentMiddlewares(app)]. *)
Definition instrumentMiddlewares (app : loc) : prog :=
  Do (ReadUse app) (fun originalAppUse =>
  Do (WriteUse app (VFunction (PatchedUse originalAppUse))) (fun _ =>
  Ret (VObject app))).

(** [Express.prototype.setupOnce], with [this._app]. *)
Definition setupOnce (_app : option loc) : prog :=
  match _app with
  | None =>
      Do (LoggerError "ExpressIntegration is missing an Express instance")
        (fun _ => Ret VUndefined)
  | Some app => andThen (instrumentMiddlewares app) (Ret VUndefined)
  end.

(** ** Calls *)

(** [apply fuel c this args w]: the call [c.apply(this, args)] from [w],
    with at most [fuel] nested calls. *)
Fixpoint apply (fuel : nat) (c : closure) (this : value) (args : list value)
    (w : world) : outcome * world :=
  match fuel with
  | 0 => (OutOfFuel, w)
  | S n => run (apply n) (code c this args) w
  end.

Definition exec (fuel : nat) (p : prog) (w : world) : outcome * world :=
  run (apply fuel) p w.

(** ** Vocabulary of the registration properties *)

(** Every callable that [wrapUseArgs] hands to [wrap] (an argument, or an
    element of an array argument) has a supported arity. *)
Definition supported_element (a : value) : bool :=
  match a with
  | VFunction fn => supported (closure_length fn)
  | _ => true
  end.

Definition supported_argument (arg : value) : bool :=
  match arg with
  | VFunction fn => supported (closure_length fn)
  | VArray elems => forallb supported_element elems
  | _ => true
  end.

(** The errors that [wrap] throws. *)
Definition arity_error (e : value) : Prop :=
  exists n, supported n = false /\ e = unsupported_arity n.

(** [fn] is an argument or an element of an array argument. *)
Definition reached (fn : closure) (args : list value) : Prop :=
  VFunction fn ∈ args \/
  exists elems, VArray elems ∈ args /\ VFunction fn ∈ elems.

(** The transformation in the words of the specification: a callable
    becomes its wrapped form, an array is mapped element by element, and
    anything else stays. *)
Definition element_transformed (a a' : value) : Prop :=
  match a with
  | VFunction fn => exists c, wrap fn = inr c /\ a' = VFunction c
  | _ => a' = a
  end.

Definition argument_transformed (arg arg' : value) : Prop :=
  match arg with
  | VFunction fn => exists c, wrap fn = inr c /\ arg' = VFunction c
  | VArray elems =>
      exists elems', arg' = VArray elems' /\
                     Forall2 element_transformed elems elems'
  | _ => arg' = arg
  end.


(** ** The integration class and further vocabulary *)

(** [options: { app?: Application }]. *)
Record ExpressOptions := { app : option loc }.

(** [Express.id]. *)
Definition Express_id : string := "Express".

(** An instance of [class Express]: [name] and the private [_app]. *)
Record Express := { name : string; _app : option loc }.

(** [new Express(options)], the parameter defaulting to [{}]. *)
Definition Express_new (options : option ExpressOptions) : Express :=
  {| name := Express_id;
     _app := match options with
             | Some o => app o
             | None => None
             end |}.

(** [integration.setupOnce()]. *)
Definition Express_setupOnce (this : Express) : prog :=
  setupOnce (_app this).

(** The method call [app.use(...args)] of the host application. *)
Definition call_use (a : loc) (args : list value) : prog :=
  Do (ReadUse a) (fun use => Call use (VObject a) args Ret).

(** What a wrapped callable passes to the original, and what it returns
    from the original's outcome. *)
Definition forwarded (arrity : nat) (span : option span_id)
    (args : list value) : list value :=
  match arrity with
  | 2 => args
  | 3 => [arg 0 args; arg 1 args;
          VFunction (SubstituteNext span (arg 2 args))]
  | _ => [arg 0 args; arg 1 args; arg 2 args;
          VFunction (SubstituteNext span (arg 3 args))]
  end.

Definition result_of (arrity : nat) (r : outcome * world) : outcome * world :=
  match arrity with
  | 2 => r
  | _ => void r
  end.

(** An argument that [wrapUseArgs] has nothing to do with: neither a
    function nor an array holding one. *)
Definition is_function (a : value) : bool :=
  match a with
  | VFunction _ => true
  | _ => false
  end.

Definition plain_argument (a : value) : bool :=
  match a with
  | VFunction _ => false
  | VArray elems => forallb (fun x => negb (is_function x)) elems
  | _ => true
  end.

(** Operations that neither finish a span nor touch a listener table. *)
Definition passive_effect {X : Type} (e : effect X) : bool :=
  match e with
  | SpanFinish _ | Once _ _ _ | TakeListener _ _ => false
  | _ => true
  end.

(** A body that calls no function and performs passive operations only,
    such as a handler that writes its answer and returns. *)
Inductive passive : prog -> Prop :=
| passive_Ret v : passive (Ret v)
| passive_Throw v : passive (Throw v)
| passive_Do {X : Type} (e : effect X) (k : X -> prog) :
    passive_effect e = true ->
    (forall x, passive (k x)) ->
    passive (Do e k).




(** * Properties *)

(** ** Running a program *)

Lemma run_call_ret (ap : applier) c this args w :
  run ap (Call (VFunction c) this args Ret) w = ap c this args w.
Proof. simpl. by destruct (ap c this args w) as [[] ?]. Qed.

Lemma run_call_void (ap : applier) c this args w :
  run ap (Call (VFunction c) this args (fun _ => Ret VUndefined)) w
  = void (ap c this args w).
Proof. simpl. by destruct (ap c this args w) as [[] ?]. Qed.

Lemma run_bind (ap : applier) p q w :
  run ap (bind p q) w =
  match run ap p w with
  | (Returned v, w') => run ap (q v) w'
  | r => r
  end.
Proof.
  revert w. induction p as [v|v|f this args k IH|X e k IH]; intros w; simpl.
  - done.
  - done.
  - destruct f; try done.
    destruct (ap c this args w) as [[v| |] w']; auto.
  - destruct (handle e w) as [x w']. auto.
Qed.

Lemma wrap_cases fn c :
  wrap fn = inr c ->
  (closure_length fn = 2 /\ c = Wrapped2 fn) \/
  (closure_length fn = 3 /\ c = Wrapped3 fn) \/
  (closure_length fn = 4 /\ c = Wrapped4 fn).
Proof.
  unfold wrap.
  destruct (closure_length fn) as [|[|[|[|[|n]]]]]; intros H; simplify_eq; auto.
Qed.

Lemma wrap_unsupported fn :
  supported (closure_length fn) = false ->
  wrap fn = inl (unsupported_arity (closure_length fn)).
Proof.
  unfold wrap.
  by destruct (closure_length fn) as [|[|[|[|[|n]]]]].
Qed.

Lemma wrap_supported fn :
  supported (closure_length fn) = true -> exists c, wrap fn = inr c.
Proof.
  unfold wrap.
  destruct (closure_length fn) as [|[|[|[|[|n]]]]]; try done; eauto.
Qed.

(** ** The wrappers, one equation per function expression *)

Lemma apply_Wrapped2_plain fn this args w fuel l :
  arg 1 args = VObject l ->
  transaction_on l w = None ->
  apply (S fuel) (Wrapped2 fn) this args w = apply fuel fn this args w.
Proof.
  intros Hres Htx. simpl. rewrite Hres. simpl.
  unfold transaction_on in Htx. simpl in Htx. rewrite Htx.
  apply run_call_ret.
Qed.

Lemma apply_Wrapped2_traced fn this args w fuel l t :
  arg 1 args = VObject l ->
  transaction_on l w = Some t ->
  apply (S fuel) (Wrapped2 fn) this args w
  = apply fuel fn this args
      (listener_registered l (next_span w)
         (span_opened t (closure_name fn) w)).
Proof.
  intros Hres Htx. simpl. rewrite Hres. simpl.
  unfold transaction_on in Htx. simpl in Htx. rewrite Htx.
  apply run_call_ret.
Qed.

Lemma apply_Wrapped3_plain fn this args w fuel l :
  arg 1 args = VObject l ->
  transaction_on l w = None ->
  apply (S fuel) (Wrapped3 fn) this args w
  = void (apply fuel fn this
            [arg 0 args; arg 1 args;
             VFunction (SubstituteNext None (arg 2 args))] w).
Proof.
  intros Hres Htx. simpl. rewrite Hres. simpl.
  unfold transaction_on in Htx. simpl in Htx. rewrite Htx.
  apply run_call_void.
Qed.

Lemma apply_Wrapped3_traced fn this args w fuel l t :
  arg 1 args = VObject l ->
  transaction_on l w = Some t ->
  apply (S fuel) (Wrapped3 fn) this args w
  = void (apply fuel fn this
            [arg 0 args; arg 1 args;
             VFunction (SubstituteNext (Some (next_span w)) (arg 2 args))]
            (span_opened t (closure_name fn) w)).
Proof.
  intros Hres Htx. simpl. rewrite Hres. simpl.
  unfold transaction_on in Htx. simpl in Htx. rewrite Htx.
  apply run_call_void.
Qed.

Lemma apply_Wrapped4_plain fn this args w fuel l :
  arg 2 args = VObject l ->
  transaction_on l w = None ->
  apply (S fuel) (Wrapped4 fn) this args w
  = void (apply fuel fn this
            [arg 0 args; arg 1 args; arg 2 args;
             VFunction (SubstituteNext None (arg 3 args))] w).
Proof.
  intros Hres Htx. simpl. rewrite Hres. simpl.
  unfold transaction_on in Htx. simpl in Htx. rewrite Htx.
  apply run_call_void.
Qed.

Lemma apply_Wrapped4_traced fn this args w fuel l t :
  arg 2 args = VObject l ->
  transaction_on l w = Some t ->
  apply (S fuel) (Wrapped4 fn) this args w
  = void (apply fuel fn this
            [arg 0 args; arg 1 args; arg 2 args;
             VFunction (SubstituteNext (Some (next_span w)) (arg 3 args))]
            (span_opened t (closure_name fn) w)).
Proof.
  intros Hres Htx. simpl. rewrite Hres. simpl.
  unfold transaction_on in Htx. simpl in Htx. rewrite Htx.
  apply run_call_void.
Qed.

Lemma apply_SubstituteNext span next this args w fuel :
  apply (S fuel) (SubstituteNext span (VFunction next)) this args w
  = apply fuel next this args
      (match span with Some s => log (EvSpanFinish s) w | None => w end).
Proof. destruct span; simpl; apply run_call_ret. Qed.

Lemma apply_FinishListener s this args w fuel :
  apply (S fuel) (FinishListener s) this args w
  = (Returned VUndefined, log (EvSpanFinish s) w).
Proof. done. Qed.

(** ** Invoking a wrapped callable *)

(** C1 (amended).  When the response carries no transaction at invocation
    time, a wrapped callable opens no span, registers no listener and adds
    no event of its own.  For arity 2 the wrapped call is the call of the
    original with the same [this] and arguments: same result, same world.
    For arity 3 and 4 the original is called with the leading arguments and
    a substitute continuation in place of the last one, the value it
    returns is discarded (the wrapper returns [undefined]), and the
    substitute continuation only forwards to the real one. *)
Theorem C1_no_transaction_no_span fn c this args w fuel l :
  wrap fn = inr c ->
  arg (response_position (closure_length fn)) args = VObject l ->
  transaction_on l w = None ->
  apply (S fuel) c this args w
  = match closure_length fn with
    | 2 => apply fuel fn this args w
    | 3 => void (apply fuel fn this
                   [arg 0 args; arg 1 args;
                    VFunction (SubstituteNext None (arg 2 args))] w)
    | _ => void (apply fuel fn this
                   [arg 0 args; arg 1 args; arg 2 args;
                    VFunction (SubstituteNext None (arg 3 args))] w)
    end
  /\ (forall next this' args' w' n,
        apply (S n) (SubstituteNext None (VFunction next)) this' args' w'
        = apply n next this' args' w').
Proof.
  intros Hwrap Hres Htx. split.
  - destruct (wrap_cases _ _ Hwrap) as [[E ->]|[[E ->]|[E ->]]];
      rewrite E in Hres |- *; simpl in Hres.
    + by eapply apply_Wrapped2_plain.
    + by eapply apply_Wrapped3_plain.
    + by eapply apply_Wrapped4_plain.
  - intros. by rewrite apply_SubstituteNext.
Qed.

(** C3 (amended).  With a response object among the arguments, invoking
    the wrapped form calls the original with the same [this].  For arity 2
    every invocation argument is forwarded, in order and count.  For arity
    3 (4) the original receives exactly three (four) arguments: the first
    two (three) of the invocation and a substitute continuation that holds
    the third (fourth); arguments beyond the declared arity are dropped. *)
Theorem C3_this_and_arguments fn c this args w fuel l :
  wrap fn = inr c ->
  arg (response_position (closure_length fn)) args = VObject l ->
  let arrity := closure_length fn in
  let w1 := entered arrity (closure_name fn) l w in
  let next' i := VFunction (SubstituteNext (span_for l w) (arg i args)) in
  apply (S fuel) c this args w
  = match arrity with
    | 2 => apply fuel fn this args w1
    | 3 => void (apply fuel fn this [arg 0 args; arg 1 args; next' 2] w1)
    | _ => void (apply fuel fn this
                   [arg 0 args; arg 1 args; arg 2 args; next' 3] w1)
    end.
Proof.
  intros Hwrap Hres. unfold entered, span_for.
  destruct (wrap_cases _ _ Hwrap) as [[E ->]|[[E ->]|[E ->]]];
    rewrite E in Hres |- *; simpl in Hres;
    destruct (transaction_on l w) as [t|] eqn:Htx; simpl.
  - by eapply apply_Wrapped2_traced.
  - by eapply apply_Wrapped2_plain.
  - by eapply apply_Wrapped3_traced.
  - by eapply apply_Wrapped3_plain.
  - by eapply apply_Wrapped4_traced.
  - by eapply apply_Wrapped4_plain.
Qed.

(** C5.  An arity-2 callable invoked through its wrapped form on a
    response that carries a transaction: a child span with op 'middleware'
    and the callable's name as description is opened, a one-time listener
    that finishes that span is registered on the response's "finish"
    event, and then the original runs with the same [this] and arguments;
    its result is the result of the wrapped call. *)
Theorem C5_arity2_with_transaction fn this args w fuel l r t :
  closure_length fn = 2 ->
  arg 1 args = VObject l ->
  lookup_response l w = Some r ->
  sentry_transaction r = Some t ->
  let s := next_span w in
  let listener := VFunction (FinishListener s) in
  let w1 :=
    {| heap := <[l := ObjResponse
                 {| sentry_transaction := Some t;
                    once_listeners :=
                      once_listeners r ++ [(next_listener w, ("finish", listener))]
                 |}]> (heap w);
       events := events w ++ [EvStartChild t (closure_name fn) "middleware" s];
       next_span := S s;
       next_listener := S (next_listener w) |} in
  wrap fn = inr (Wrapped2 fn)
  /\ apply (S fuel) (Wrapped2 fn) this args w = apply fuel fn this args w1
  /\ (forall this' args' w' n,
        apply (S n) (FinishListener s) this' args' w'
        = (Returned VUndefined, log (EvSpanFinish s) w')).
Proof.
  intros E Hres Hr Ht s listener w1. split; [|split].
  - unfold wrap. by rewrite E.
  - rewrite (apply_Wrapped2_traced fn this args w fuel l t Hres).
    + f_equal. unfold listener_registered, span_opened. simpl.
      unfold lookup_response in *. simpl.
      destruct (heap w !! l) as [[r'|?]|]; simplify_eq. by rewrite Ht.
    + unfold transaction_on. simpl. by rewrite Hr.
  - done.
Qed.

(** C6.  An arity-3 or arity-4 callable invoked through its wrapped form
    on a response that carries a transaction: the original's body starts
    from the world in which the span is already open, and an invocation of
    the substitute continuation first finishes the span and then calls the
    real continuation with the [this] and all the arguments it was given. *)
Theorem C6_continuation_ordering fn c this args w fuel l t :
  wrap fn = inr c ->
  closure_length fn <> 2 ->
  arg (response_position (closure_length fn)) args = VObject l ->
  transaction_on l w = Some t ->
  let s := next_span w in
  let w1 :=
    {| heap := heap w;
       events := events w ++ [EvStartChild t (closure_name fn) "middleware" s];
       next_span := S s;
       next_listener := next_listener w |} in
  apply (S fuel) c this args w
  = void (apply fuel fn this
            match closure_length fn with
            | 3 => [arg 0 args; arg 1 args;
                    VFunction (SubstituteNext (Some s) (arg 2 args))]
            | _ => [arg 0 args; arg 1 args; arg 2 args;
                    VFunction (SubstituteNext (Some s) (arg 3 args))]
            end w1)
  /\ (forall next this' args' w' n,
        apply (S n) (SubstituteNext (Some s) (VFunction next)) this' args' w'
        = apply n next this' args' (log (EvSpanFinish s) w')).
Proof.
  intros Hwrap Hne Hres Htx s w1. split.
  - destruct (wrap_cases _ _ Hwrap) as [[E ->]|[[E ->]|[E ->]]];
      rewrite E in Hres |- *; simpl in Hres; [done| |].
    + by erewrite apply_Wrapped3_traced.
    + by erewrite apply_Wrapped4_traced.
  - intros. by rewrite apply_SubstituteNext.
Qed.

(** ** Finishing a span *)

Lemma count_finish_app s evs evs' :
  count_finish s (evs ++ evs') = count_finish s evs + count_finish s evs'.
Proof. unfold count_finish. by rewrite List.filter_app, length_app. Qed.

Lemma count_finish_spans s spans :
  count_finish s (EvSpanFinish <$> spans)
  = length (List.filter (fun s' => bool_decide (s' = s)) spans).
Proof.
  unfold count_finish. induction spans as [|s' spans IH]; [done|].
  cbn in *. destruct (bool_decide (s' = s)); cbn; congruence.
Qed.

Lemma find_listener_elem e ls :
  NoDup (fst <$> ls) -> e ∈ ls -> find_listener e.1 ls = Some e.2.2.
Proof.
  unfold find_listener. induction ls as [|x ls IH]; intros Hnd Hin.
  - by inversion Hin.
  - rewrite fmap_cons in Hnd. apply NoDup_cons in Hnd as [Hx Hnd].
    simpl. unfold listener_is at 1.
    apply elem_of_cons in Hin as [->|Hin].
    + by rewrite bool_decide_eq_true_2.
    + rewrite bool_decide_eq_false_2; [by apply IH|].
      intros Heq. apply Hx. rewrite Heq. by apply list_elem_of_fmap_2.
Qed.

Lemma elem_of_remove_listener id e ls :
  e ∈ remove_listener id ls <-> e ∈ ls /\ e.1 <> id.
Proof.
  unfold remove_listener, listener_is.
  by rewrite !list_elem_of_In, List.filter_In, negb_true_iff,
    bool_decide_eq_false.
Qed.

Lemma NoDup_remove_listener id ls :
  NoDup (fst <$> ls) -> NoDup (fst <$> remove_listener id ls).
Proof.
  induction ls as [|x ls IH]; [done|].
  rewrite fmap_cons. intros [Hx Hnd]%NoDup_cons.
  unfold remove_listener in *. simpl. destruct (negb (listener_is id x)).
  - rewrite fmap_cons. apply NoDup_cons. split; [|by apply IH].
    intros (y & Hy & Hin)%list_elem_of_fmap_1. apply Hx.
    apply (elem_of_remove_listener id) in Hin as [Hin _].
    rewrite Hy. by apply list_elem_of_fmap_2.
  - by apply IH.
Qed.

(** Firing the listeners [F] of a response, all of them registered by the
    wrapper: each finishes its span, once, and leaves the table. *)
Lemma run_fire l fuel F : forall w r,
  lookup_response l w = Some r ->
  NoDup (fst <$> once_listeners r) ->
  NoDup (fst <$> F) ->
  Forall (fun e => e ∈ once_listeners r /\ is_Some (closing_span e)) F ->
  exists w',
    run (apply (S fuel)) (fire l (fst <$> F)) w = (Returned VUndefined, w')
    /\ events w' = events w ++ (EvSpanFinish <$> omap closing_span F)
    /\ (forall e, e ∈ listeners_on l w' ->
          e ∈ once_listeners r /\ e.1 ∉ fst <$> F).
Proof.
  induction F as [|e F IH]; intros w r Hr Hnd HndF HF.
  - exists w. split_and!; [done|by rewrite app_nil_r|].
    unfold listeners_on. rewrite Hr. intros e He. split; [done|].
    by intros ?%elem_of_nil.
  - apply Forall_cons in HF as [[Hin [s Hs]] HF].
    rewrite fmap_cons in HndF. apply NoDup_cons in HndF as [HeF HndF].
    set (r1 := {| sentry_transaction := sentry_transaction r;
                  once_listeners := remove_listener e.1 (once_listeners r) |}).
    set (w1 := log (EvSpanFinish s)
                 (set_heap (<[l := ObjResponse r1]> (heap w)) w)).
    destruct (IH w1 r1) as (w' & Hrun & Hev & Hls).
    { unfold lookup_response, w1. simpl. by rewrite lookup_insert_eq. }
    { by apply NoDup_remove_listener. }
    { done. }
    { apply Forall_forall. intros e' He'.
      rewrite Forall_forall in HF.
      destruct (HF e' He') as [Hin' Hs']. split; [|done].
      apply elem_of_remove_listener. split; [done|].
      intros Heq. apply HeF. rewrite <- Heq. by apply list_elem_of_fmap_2. }
    exists w'. split_and!.
    + rewrite fmap_cons. simpl. rewrite Hr.
      rewrite (find_listener_elem e _ Hnd Hin).
      unfold closing_span in Hs.
      destruct (e.2.2) as [| | | | | | | | |[]]; simplify_eq.
      simpl. exact Hrun.
    + rewrite Hev. simpl. rewrite Hs. simpl. by rewrite <- app_assoc.
    + intros e' He'. destruct (Hls e' He') as [Hin' Hne].
      apply elem_of_remove_listener in Hin' as [Hin' Hne'].
      split; [done|]. rewrite fmap_cons.
      intros [?|?]%elem_of_cons; [done|]. by apply Hne.
Qed.

Lemma NoDup_fst_filter f (ls : list (nat * (string * value))) :
  NoDup (fst <$> ls) -> NoDup (fst <$> List.filter f ls).
Proof.
  induction ls as [|x ls IH]; [done|].
  rewrite fmap_cons. intros [Hx Hnd]%NoDup_cons. simpl. destruct (f x).
  - rewrite fmap_cons. apply NoDup_cons. split; [|by apply IH].
    intros (y & Hy & Hin)%list_elem_of_fmap_1. apply Hx.
    apply list_elem_of_In, List.filter_In in Hin as [Hin _].
    rewrite Hy. by apply list_elem_of_fmap_2, list_elem_of_In.
  - by apply IH.
Qed.


(** One firing of [ev]: every listener of the wrapper finishes its span
    and none is left for [ev]. *)
Lemma exec_emit l ev fuel w :
  NoDup (fst <$> listeners_on l w) ->
  wrapper_listeners ev (listeners_on l w) ->
  exists w',
    exec (S fuel) (emit l ev) w = (Returned VUndefined, w')
    /\ events w'
       = events w ++ (EvSpanFinish <$> spans_closed_by ev (listeners_on l w))
    /\ List.filter (listener_on ev) (listeners_on l w') = [].
Proof.
  unfold exec, emit, listeners_on, spans_closed_by. simpl.
  destruct (lookup_response l w) as [r|] eqn:Hr.
  - intros Hnd Hwr.
    destruct (run_fire l fuel (List.filter (listener_on ev) (once_listeners r))
                w r Hr Hnd) as (w' & Hrun & Hev & Hls).
    { by apply NoDup_fst_filter. }
    { apply Forall_forall. intros e He.
      apply list_elem_of_In, List.filter_In in He as [He Hon].
      apply list_elem_of_In in He. split; [done|].
      unfold wrapper_listeners in Hwr. rewrite Forall_forall in Hwr. auto. }
    exists w'. split_and!; [done|done|].
    fold (listeners_on l w').
    destruct (List.filter (listener_on ev) (listeners_on l w'))
      as [|e rest] eqn:Hrest; [done|]. exfalso.
    assert (He : In e (List.filter (listener_on ev) (listeners_on l w')))
      by (rewrite Hrest; by left).
    apply List.filter_In in He as [He Hon].
    apply list_elem_of_In in He. destruct (Hls e He) as [Hin Hne].
    apply Hne, list_elem_of_fmap_2, list_elem_of_In, List.filter_In.
    split; [by apply list_elem_of_In|done].
  - intros _ _. exists w. rewrite Hr. split_and!; try done.
    by rewrite app_nil_r.
Qed.

(** Firing [ev] when no listener is registered for it changes nothing. *)
Lemma exec_emit_idle l ev fuel k w :
  List.filter (listener_on ev) (listeners_on l w) = [] ->
  exec fuel (emit_times k l ev) w = (Returned VUndefined, w).
Proof.
  intros Hidle. unfold exec. induction k as [|k IH]; [done|].
  cbn [emit_times]. unfold andThen. rewrite run_bind.
  assert (Hemit : run (apply fuel) (emit l ev) w = (Returned VUndefined, w)).
  { unfold emit, listeners_on in *. simpl.
    destruct (lookup_response l w); [by rewrite Hidle|done]. }
  by rewrite Hemit.
Qed.


(** ** Registration *)

Lemma map_throwing_inr f l l' :
  map_throwing f l = inr l' -> Forall2 (fun x y => f x = inr y) l l'.
Proof.
  revert l'. induction l as [|x l IH]; intros l' H; simpl in H.
  - simplify_eq. constructor.
  - destruct (f x) as [e|y] eqn:Hx; [done|].
    destruct (map_throwing f l) as [e|ys]; simplify_eq.
    constructor; auto.
Qed.

Lemma map_throwing_total f l :
  Forall (fun x => exists y, f x = inr y) l ->
  exists l', map_throwing f l = inr l'.
Proof.
  induction 1 as [|x l [y Hy] _ [l' IH]]; simpl.
  - by eexists.
  - rewrite Hy, IH. by eexists.
Qed.

Lemma map_throwing_inl (P : value -> Prop) f l x e :
  (forall x e, f x = inl e -> P e) ->
  x ∈ l -> f x = inl e ->
  exists e', map_throwing f l = inl e' /\ P e'.
Proof.
  intros HP Hin Hx. induction l as [|y l IH]; [by inversion Hin|].
  simpl. destruct (f y) as [e1|y'] eqn:Hy; [eauto|].
  apply elem_of_cons in Hin as [->|Hin]; [congruence|].
  destruct (IH Hin) as (e' & -> & ?). eauto.
Qed.

Lemma wrap_value_inl fn e : wrap_value fn = inl e -> arity_error e.
Proof.
  unfold wrap_value, wrap.
  destruct (closure_length fn) as [|[|[|[|[|n]]]]] eqn:E; intros H;
    simplify_eq; (eexists; split; [|reflexivity]; reflexivity).
Qed.

Lemma wrap_element_inl a e : wrap_element a = inl e -> arity_error e.
Proof. destruct a; simpl; try done. apply wrap_value_inl. Qed.

Lemma wrap_argument_inl a e : wrap_argument a = inl e -> arity_error e.
Proof.
  destruct a; simpl; try done.
  - destruct (map_throwing wrap_element elems) as [e'|?] eqn:H; [|done].
    intros ?; simplify_eq. clear -H.
    induction elems as [|x l IH]; simpl in H; [done|].
    destruct (wrap_element x) as [e1|y] eqn:Hx.
    + simplify_eq. by eapply wrap_element_inl.
    + destruct (map_throwing wrap_element l); simplify_eq. auto.
  - apply wrap_value_inl.
Qed.

Lemma wrap_value_unsupported fn :
  supported (closure_length fn) = false ->
  wrap_value fn = inl (unsupported_arity (closure_length fn)).
Proof. intros H. unfold wrap_value. by rewrite wrap_unsupported. Qed.

Lemma wrapUseArgs_throws fn args :
  reached fn args ->
  supported (closure_length fn) = false ->
  exists e, wrapUseArgs args = inl e /\ arity_error e.
Proof.
  intros [Hin|(elems & Hin & Hel)] Hbad.
  - eapply (map_throwing_inl arity_error); [apply wrap_argument_inl|done|].
    simpl. by apply wrap_value_unsupported.
  - destruct (map_throwing_inl arity_error wrap_element elems (VFunction fn)
                (unsupported_arity (closure_length fn)))
      as (e & He & ?); [apply wrap_element_inl|done| |].
    { simpl. by apply wrap_value_unsupported. }
    eapply (map_throwing_inl arity_error); [apply wrap_argument_inl|done|].
    simpl. by rewrite He.
Qed.

Lemma apply_PatchedUse_forward orig this args args' w fuel :
  wrapUseArgs args = inr args' ->
  apply (S fuel) (PatchedUse (VFunction orig)) this args w
  = apply fuel orig this args' w.
Proof. intros H. simpl. rewrite H. apply run_call_ret. Qed.

Lemma apply_PatchedUse_throw originalAppUse this args e w fuel :
  wrapUseArgs args = inl e ->
  exists e',
    apply (S fuel) (PatchedUse originalAppUse) this args w = (Threw e', w)
    /\ (forall orig, originalAppUse = VFunction orig -> e' = e).
Proof.
  intros H. simpl. rewrite H.
  destruct originalAppUse; simpl; eexists; split; try done;
    intros; by simplify_eq.
Qed.

(** C4.  A callable whose declared arity is not 2, 3 or 4 has no wrapped
    form: [wrap] throws the unsupported-arity error, and a registration
    through the patched [use] that hands it to [wrap] (as an argument or
    as an element of an array argument) throws too, leaving the world as
    it was. *)
Theorem C4_unsupported_arity fn :
  supported (closure_length fn) = false ->
  wrap fn = inl (unsupported_arity (closure_length fn))
  /\ (forall c, wrap fn <> inr c)
  /\ (forall args originalAppUse this w fuel,
        reached fn args ->
        exists e,
          apply (S fuel) (PatchedUse originalAppUse) this args w = (Threw e, w)).
Proof.
  intros Hbad. split; [|split].
  - by apply wrap_unsupported.
  - intros c. by rewrite wrap_unsupported.
  - intros args orig this w fuel Hin.
    destruct (wrapUseArgs_throws fn args Hin Hbad) as (e & He & _).
    destruct (apply_PatchedUse_throw orig this args e w fuel He) as (e' & ? & _).
    eauto.
Qed.

(** C7.  When every callable among the arguments and among the elements
    of array arguments has arity 2, 3 or 4, the patched [use] calls the
    original [use] with the same [this] and with the transformed list:
    same length and order, each callable replaced by its wrapped form,
    each array mapped element by element (callables wrapped, other
    elements kept), every other argument kept. *)
Theorem C7_arguments_transformed args :
  forallb supported_argument args = true ->
  exists args',
    wrapUseArgs args = inr args'
    /\ length args' = length args
    /\ Forall2 argument_transformed args args'
    /\ (forall orig this w fuel,
          apply (S fuel) (PatchedUse (VFunction orig)) this args w
          = apply fuel orig this args' w).
Proof.
  intros Hsup.
  assert (Helem : forall a, supported_element a = true ->
                            exists a', wrap_element a = inr a').
  { intros a Ha. destruct a; simpl in *; eauto.
    unfold wrap_value. destruct (wrap_supported _ Ha) as [c' ->]. eauto. }
  assert (Htot : exists args', wrapUseArgs args = inr args').
  { apply map_throwing_total. apply Forall_forall. intros a Ha.
    rewrite forallb_forall in Hsup. apply list_elem_of_In in Ha.
    specialize (Hsup a Ha). destruct a; simpl in *; eauto.
    - destruct (map_throwing_total wrap_element elems) as [l' ->]; eauto.
      apply Forall_forall. intros x Hx. apply Helem.
      rewrite forallb_forall in Hsup. apply Hsup. by apply list_elem_of_In.
    - unfold wrap_value. destruct (wrap_supported _ Hsup) as [c' ->]. eauto. }
  destruct Htot as [args' Hargs']. exists args'.
  pose proof (map_throwing_inr _ _ _ Hargs') as Hall.
  assert (Htr : Forall2 argument_transformed args args').
  { eapply Forall2_impl; [exact Hall|]. clear. intros a a' H.
    destruct a; simpl in *; simplify_eq; try done.
    - destruct (map_throwing wrap_element elems) as [?|elems'] eqn:E;
        simplify_eq.
      exists elems'. split; [done|].
      eapply Forall2_impl; [exact (map_throwing_inr _ _ _ E)|].
      clear. intros x x' H. destruct x; simpl in *; simplify_eq; try done.
      unfold wrap_value in H. destruct (wrap c) eqn:?; simplify_eq. eauto.
    - unfold wrap_value in H. destruct (wrap c) eqn:?; simplify_eq. eauto. }
  split_and!; try done.
  - symmetry. by eapply Forall2_length.
  - intros. by apply apply_PatchedUse_forward.
Qed.

(** C8.  [setupOnce] of an integration built without an application
    logs an error, leaves the heap (and so every application's [use])
    as it is and returns normally; with an application it replaces the
    application's [use] by the interceptor holding the original [use]. *)
Theorem C8_setupOnce w fuel :
  exec fuel (setupOnce None) w
  = (Returned VUndefined,
     log (EvLoggerError "ExpressIntegration is missing an Express instance") w)
  /\ heap (exec fuel (setupOnce None) w).2 = heap w
  /\ (forall app use,
        heap w !! app = Some (ObjApplication use) ->
        exec fuel (setupOnce (Some app)) w
        = (Returned VUndefined,
           set_heap (<[app := ObjApplication (VFunction (PatchedUse use))]>
                       (heap w)) w)).
Proof.
  split_and!; try done.
  intros app use Happ. unfold exec. simpl. by rewrite Happ.
Qed.

(** C9.  If a callable of unsupported arity is an argument or an element
    of an array argument, the patched [use] throws and the world is the
    one before the call: the original [use] has not run and nothing of
    that call is registered; when the original [use] is a function, the
    error is the unsupported-arity error. *)
Theorem C9_failed_registration fn args originalAppUse this w fuel :
  reached fn args ->
  supported (closure_length fn) = false ->
  exists e,
    apply (S fuel) (PatchedUse originalAppUse) this args w = (Threw e, w)
    /\ (forall orig, originalAppUse = VFunction orig ->
          exists n, supported n = false /\ e = unsupported_arity n).
Proof.
  intros Hin Hbad.
  destruct (wrapUseArgs_throws fn args Hin Hbad) as (e & He & Harity).
  destruct (apply_PatchedUse_throw originalAppUse this args e w fuel He)
    as (e' & Hthrow & Heq).
  exists e'. split; [done|]. intros orig ->. by rewrite (Heq orig).
Qed.

(** C10.  An array that is itself an element of an array argument is
    forwarded to the original [use] as it is: the callables inside it are
    not wrapped, whatever their arity. *)
Theorem C10_nested_arrays_untouched args args' i elems j inner :
  wrapUseArgs args = inr args' ->
  args !! i = Some (VArray elems) ->
  elems !! j = Some (VArray inner) ->
  (exists elems',
      args' !! i = Some (VArray elems')
      /\ elems' !! j = Some (VArray inner))
  /\ (forall orig this w fuel,
        apply (S fuel) (PatchedUse (VFunction orig)) this args w
        = apply fuel orig this args' w).
Proof.
  intros Hargs Hi Hj. split.
  - pose proof (map_throwing_inr _ _ _ Hargs) as Hall.
    destruct (Forall2_lookup_l _ _ _ _ _ Hall Hi) as (a' & Hi' & Ha').
    simpl in Ha'.
    destruct (map_throwing wrap_element elems) as [?|elems'] eqn:E;
      simplify_eq.
    exists elems'. split; [done|].
    pose proof (map_throwing_inr _ _ _ E) as Hel.
    destruct (Forall2_lookup_l _ _ _ _ _ Hel Hj) as (x' & Hj' & Hx').
    simpl in Hx'. by simplify_eq.
  - intros. by apply apply_PatchedUse_forward.
Qed.

(** ** Further properties of the wrappers *)

Lemma apply_wrapped fn c this args w fuel l :
  wrap fn = inr c ->
  arg (response_position (closure_length fn)) args = VObject l ->
  apply (S fuel) c this args w
  = result_of (closure_length fn)
      (apply fuel fn this
         (forwarded (closure_length fn) (span_for l w) args)
         (entered (closure_length fn) (closure_name fn) l w)).
Proof.
  intros Hwrap Hres. unfold entered, span_for.
  destruct (wrap_cases _ _ Hwrap) as [[E ->]|[[E ->]|[E ->]]];
    rewrite E in Hres |- *; simpl in Hres;
    destruct (transaction_on l w) as [t|] eqn:Htx; simpl.
  - by eapply apply_Wrapped2_traced.
  - by eapply apply_Wrapped2_plain.
  - by eapply apply_Wrapped3_traced.
  - by eapply apply_Wrapped3_plain.
  - by eapply apply_Wrapped4_traced.
  - by eapply apply_Wrapped4_plain.
Qed.

(** X1.  The wrapped form declares as many parameters as the original,
    is anonymous, and can itself be wrapped: wrapping a second time never
    fails. *)
Theorem X1_wrap_keeps_arity fn c :
  wrap fn = inr c ->
  closure_length c = closure_length fn
  /\ closure_name c = ""
  /\ exists c', wrap c = inr c' /\ closure_length c' = closure_length fn.
Proof.
  intros Hwrap.
  destruct (wrap_cases _ _ Hwrap) as [[E ->]|[[E ->]|[E ->]]];
    rewrite E; split_and!; try done; by eexists.
Qed.

(** X5.  A wrapped callable invoked without a response ([undefined] or
    [null] where the response is expected, for instance with too few
    arguments) throws a TypeError when it reads the transaction: the
    original is not called and the world is as before. *)
Theorem X5_missing_response fn c this args w fuel :
  wrap fn = inr c ->
  arg (response_position (closure_length fn)) args = VUndefined \/
  arg (response_position (closure_length fn)) args = VNull ->
  apply (S fuel) c this args w = (Threw VTypeError, w).
Proof.
  intros Hwrap Hres.
  destruct (wrap_cases _ _ Hwrap) as [[E ->]|[[E ->]|[E ->]]];
    rewrite E in Hres; simpl in Hres; simpl;
    destruct Hres as [-> | ->]; done.
Qed.

(** X6.  Nothing is caught.  An error thrown by the original callable
    leaves the wrapped callable unchanged, with the world the original
    left; an error thrown by the real continuation leaves the substitute
    continuation unchanged, after the span was finished; an error thrown
    by the original [use] leaves the patched [use] unchanged. *)
Theorem X6_errors_propagate e w' :
  (forall fn c this args w fuel l,
      wrap fn = inr c ->
      arg (response_position (closure_length fn)) args = VObject l ->
      apply fuel fn this
        (forwarded (closure_length fn) (span_for l w) args)
        (entered (closure_length fn) (closure_name fn) l w)
      = (Threw e, w') ->
      apply (S fuel) c this args w = (Threw e, w'))
  /\ (forall span next this args w fuel,
        apply fuel next this args
          (match span with Some s => log (EvSpanFinish s) w | None => w end)
        = (Threw e, w') ->
        apply (S fuel) (SubstituteNext span (VFunction next)) this args w
        = (Threw e, w'))
  /\ (forall orig this args args' w fuel,
        wrapUseArgs args = inr args' ->
        apply fuel orig this args' w = (Threw e, w') ->
        apply (S fuel) (PatchedUse (VFunction orig)) this args w
        = (Threw e, w')).
Proof.
  split_and!.
  - intros fn c this args w fuel l Hwrap Hres Hthrow.
    rewrite (apply_wrapped fn c this args w fuel l Hwrap Hres), Hthrow.
    unfold result_of. by destruct (closure_length fn) as [|[|[|?]]].
  - intros. by rewrite apply_SubstituteNext.
  - intros orig this args args' w fuel Hargs Hthrow.
    by rewrite (apply_PatchedUse_forward orig this args args' w fuel Hargs).
Qed.

(** X7.  A substitute continuation whose real continuation is not a
    function (the wrapped callable was invoked without [next]) still
    finishes the span, and then throws a TypeError. *)
Theorem X7_continuation_not_callable span next this args w fuel :
  is_function next = false ->
  apply (S fuel) (SubstituteNext span next) this args w
  = (Threw VTypeError,
     match span with Some s => log (EvSpanFinish s) w | None => w end).
Proof. intros Hnext. destruct span, next; simpl in *; done. Qed.

(** ** Callables that call nothing *)

Lemma lookup_response_insert_response l l' r h w :
  lookup_response l (set_heap (<[l' := ObjResponse r]> h) w)
  = if decide (l' = l) then Some r else lookup_response l (set_heap h w).
Proof.
  unfold lookup_response. simpl. destruct (decide (l' = l)) as [->|Hne].
  - by rewrite lookup_insert_eq.
  - by rewrite lookup_insert_ne.
Qed.

Lemma handle_passive {X : Type} (e : effect X) w :
  passive_effect e = true ->
  (exists evs, events (handle e w).2 = events w ++ evs
               /\ forall s, count_finish s evs = 0)
  /\ (forall l, listeners_on l (handle e w).2 = listeners_on l w).
Proof.
  destruct e; intros Hp; try done; simpl.
  - split; [exists []; by rewrite app_nil_r|done].
  - destruct (lookup_response l w) as [r|] eqn:Hr.
    + split; [exists []; by rewrite app_nil_r|].
      intros l'. unfold listeners_on.
      rewrite lookup_response_insert_response.
      destruct (decide (l = l')) as [<-|Hne]; [by rewrite Hr|done].
    + split; [exists []; by rewrite app_nil_r|done].
  - split; [eexists [_]; by split|done].
  - split; [exists []; by rewrite app_nil_r|done].
  - split; [eexists [_]; by split|done].
  - split; [exists []; by rewrite app_nil_r|done].
  - destruct (heap w !! l) as [[r|use]|] eqn:Hl;
      (split; [exists []; by rewrite app_nil_r|]); try done.
    intros l'. unfold listeners_on, lookup_response. simpl.
    destruct (decide (l = l')) as [<-|Hne].
    + by rewrite lookup_insert_eq, Hl.
    + by rewrite lookup_insert_ne.
  - split; [eexists [_]; by split|done].
Qed.

(** A passive body ends whatever the budget, finishes no span and leaves
    every listener table as it found it. *)
Lemma run_passive (ap : applier) p :
  passive p ->
  forall w, exists o w' evs,
    run ap p w = (o, w')
    /\ o <> OutOfFuel
    /\ events w' = events w ++ evs
    /\ (forall s, count_finish s evs = 0)
    /\ (forall l, listeners_on l w' = listeners_on l w).
Proof.
  induction 1 as [v|v|X e k He _ IH]; intros w.
  - exists (Returned v), w, []. split_and!; try done. by rewrite app_nil_r.
  - exists (Threw v), w, []. split_and!; try done. by rewrite app_nil_r.
  - simpl. destruct (handle_passive e w He) as [(evs1 & Hev1 & Hc1) Hls1].
    destruct (handle e w) as [x w1]. simpl in *.
    destruct (IH x w1) as (o & w' & evs2 & Hrun & Ho & Hev2 & Hc2 & Hls2).
    exists o, w', (evs1 ++ evs2). split_and!; try done.
    + by rewrite Hev2, Hev1, app_assoc.
    + intros s. by rewrite count_finish_app, Hc1, Hc2.
    + intros l. by rewrite Hls2, Hls1.
Qed.

Lemma exec_emit_times s l w k fuel :
  NoDup (fst <$> listeners_on l w) ->
  wrapper_listeners "finish" (listeners_on l w) ->
  exists w',
    exec (S fuel) (emit_times k l "finish") w = (Returned VUndefined, w')
    /\ count_finish s (events w')
       = count_finish s (events w)
         + match k with
           | 0 => 0
           | _ => registrations s "finish" (listeners_on l w)
           end.
Proof.
  destruct k as [|k]; intros Hnd Hwr.
  - exists w. split; [done|lia].
  - destruct (exec_emit l "finish" fuel w Hnd Hwr) as (w' & Hrun & Hev & Hidle).
    exists w'. split.
    + unfold exec in *. cbn [emit_times]. unfold andThen.
      rewrite run_bind, Hrun. by apply exec_emit_idle.
    + by rewrite Hev, count_finish_app, count_finish_spans.
Qed.

Lemma listeners_entered2 l w t description :
  transaction_on l w = Some t ->
  listeners_on l (entered 2 description l w)
  = listeners_on l w
    ++ [(next_listener w, ("finish", VFunction (FinishListener (next_span w))))].
Proof.
  intros Htx. unfold entered. rewrite Htx.
  unfold transaction_on in Htx. simpl in Htx.
  unfold listener_registered, span_opened, listeners_on. simpl.
  unfold lookup_response in *. simpl.
  destruct (heap w !! l) as [[r|?]|] eqn:Hl; try done. simpl.
  by rewrite lookup_insert_eq.
Qed.

Lemma events_entered arrity l w t description :
  transaction_on l w = Some t ->
  events (entered arrity description l w)
  = events w ++ [EvStartChild t description "middleware" (next_span w)].
Proof.
  intros Htx. unfold entered. rewrite Htx.
  unfold transaction_on in Htx. simpl in Htx.
  unfold listener_registered, span_opened, lookup_response in *. simpl.
  destruct arrity as [|[|[|?]]]; try done.
  by destruct (lookup_response l _).
Qed.

(** X8.  A middleware with a continuation (arity 3 or 4) that returns or
    throws without calling anything leaves its span open: the wrapped
    invocation ends, the span was opened, and nothing that follows in the
    trace finishes a span. *)
Theorem X8_span_left_open fn c this args w fuel l t :
  wrap fn = inr c ->
  closure_length fn <> 2 ->
  arg (response_position (closure_length fn)) args = VObject l ->
  transaction_on l w = Some t ->
  (forall this' args', passive (code fn this' args')) ->
  exists o w' evs,
    apply (S (S fuel)) c this args w = (o, w')
    /\ o <> OutOfFuel
    /\ events w'
       = events w
         ++ EvStartChild t (closure_name fn) "middleware" (next_span w) :: evs
    /\ (forall s, count_finish s evs = 0).
Proof.
  intros Hwrap Hne Hres Htx Hp.
  rewrite (apply_wrapped fn c this args w (S fuel) l Hwrap Hres).
  cbn [apply].
  destruct (run_passive (apply fuel) _
              (Hp this (forwarded (closure_length fn) (span_for l w) args))
              (entered (closure_length fn) (closure_name fn) l w))
    as (o & w' & evs & Hrun & Ho & Hev & Hc & _).
  rewrite Hrun.
  rewrite (events_entered _ l w t _ Htx), <- app_assoc in Hev.
  unfold result_of.
  destruct (closure_length fn) as [|[|[|?]]]; try done;
    (destruct o; [eexists (Returned VUndefined), w', evs
                 |eexists (Threw v), w', evs|done]; by split_and!).
Qed.

(** X9.  A handler of arity 2 that calls nothing, wrapped and invoked on
    a response that carries a transaction and has no listener yet: the
    invocation ends, and when the response then fires "finish" [k] times
    the span is finished exactly once if [k > 0] and not at all if
    [k = 0]. *)
Theorem X9_handler_span_finished_once fn this args w fuel l t k :
  closure_length fn = 2 ->
  arg 1 args = VObject l ->
  transaction_on l w = Some t ->
  listeners_on l w = [] ->
  (forall this' args', passive (code fn this' args')) ->
  exists o w1 w2,
    apply (S (S fuel)) (Wrapped2 fn) this args w = (o, w1)
    /\ o <> OutOfFuel
    /\ exec (S fuel) (emit_times k l "finish") w1 = (Returned VUndefined, w2)
    /\ count_finish (next_span w) (events w2)
       = count_finish (next_span w) (events w)
         + match k with 0 => 0 | _ => 1 end.
Proof.
  intros E Hres Htx Hnone Hp.
  rewrite (apply_Wrapped2_traced fn this args w (S fuel) l t Hres Htx).
  assert (Hent : listener_registered l (next_span w)
                   (span_opened t (closure_name fn) w)
                 = entered 2 (closure_name fn) l w)
    by (unfold entered; by rewrite Htx).
  rewrite Hent. cbn [apply].
  destruct (run_passive (apply fuel) _ (Hp this args)
              (entered 2 (closure_name fn) l w))
    as (o & w1 & evs & Hrun & Ho & Hev & Hc & Hls).
  assert (Hl1 : listeners_on l w1
                = [(next_listener w,
                    ("finish", VFunction (FinishListener (next_span w))))]).
  { by rewrite Hls, (listeners_entered2 l w t _ Htx), Hnone. }
  destruct (exec_emit_times (next_span w) l w1 k fuel)
    as (w2 & Hemit & Hcount).
  { rewrite Hl1. apply NoDup_singleton. }
  { rewrite Hl1. repeat constructor. intros _. by eexists. }
  exists o, w1, w2. split_and!; try done.
  rewrite Hcount, Hev, (events_entered 2 l w t _ Htx), !count_finish_app, Hc.
  rewrite Hl1. unfold registrations, spans_closed_by. simpl.
  rewrite bool_decide_eq_true_2 by done. unfold count_finish. simpl.
  destruct k; lia.
Qed.

(** ** Finishing the span of a wrapped invocation *)





(** ** Further properties of the registration *)

Lemma wrap_value_total fn :
  supported (closure_length fn) = true -> exists a', wrap_value fn = inr a'.
Proof.
  intros H. unfold wrap_value. destruct (wrap_supported _ H) as [c ->]. eauto.
Qed.

Lemma wrap_value_inr fn a' :
  wrap_value fn = inr a' ->
  supported (closure_length fn) = true
  /\ exists c, a' = VFunction c
               /\ supported (closure_length c) = true.
Proof.
  unfold wrap_value. destruct (wrap fn) as [?|c] eqn:Hwrap; [done|].
  intros ?; simplify_eq.
  destruct (wrap_cases _ _ Hwrap) as [[E ->]|[[E ->]|[E ->]]];
    rewrite E; eauto.
Qed.

Lemma wrap_element_total a :
  supported_element a = true -> exists a', wrap_element a = inr a'.
Proof. destruct a; simpl; eauto using wrap_value_total. Qed.

Lemma wrap_element_inr a a' :
  wrap_element a = inr a' ->
  supported_element a = true /\ supported_element a' = true.
Proof.
  destruct a; simpl; intros H; simplify_eq; try done.
  destruct (wrap_value_inr _ _ H) as (? & c' & -> & ?). done.
Qed.

Lemma map_throwing_elements elems elems' :
  map_throwing wrap_element elems = inr elems' ->
  forallb supported_element elems = true
  /\ forallb supported_element elems' = true.
Proof.
  revert elems'. induction elems as [|x l IH]; intros elems' H; simpl in H.
  - by simplify_eq.
  - destruct (wrap_element x) as [?|y] eqn:Hx; [done|].
    destruct (map_throwing wrap_element l) as [?|ys]; simplify_eq.
    destruct (wrap_element_inr _ _ Hx) as [? ?].
    destruct (IH ys eq_refl) as [? ?]. simpl. split; by apply andb_true_iff.
Qed.

Lemma wrap_argument_total a :
  supported_argument a = true -> exists a', wrap_argument a = inr a'.
Proof.
  destruct a; simpl; eauto using wrap_value_total.
  intros H. destruct (map_throwing_total wrap_element elems) as [l' ->]; eauto.
  apply Forall_forall. intros x Hx. apply wrap_element_total.
  rewrite forallb_forall in H. apply H. by apply list_elem_of_In.
Qed.

Lemma wrap_argument_inr a a' :
  wrap_argument a = inr a' ->
  supported_argument a = true /\ supported_argument a' = true.
Proof.
  destruct a; simpl; intros H; simplify_eq; try done.
  - destruct (map_throwing wrap_element elems) as [?|elems'] eqn:E;
      simplify_eq.
    by apply map_throwing_elements.
  - destruct (wrap_value_inr _ _ H) as (? & c' & -> & ?). done.
Qed.

Lemma wrapUseArgs_inr args args' :
  wrapUseArgs args = inr args' ->
  forallb supported_argument args = true
  /\ forallb supported_argument args' = true.
Proof.
  unfold wrapUseArgs. revert args'.
  induction args as [|x l IH]; intros args' H; simpl in H.
  - by simplify_eq.
  - destruct (wrap_argument x) as [?|y] eqn:Hx; [done|].
    destruct (map_throwing wrap_argument l) as [?|ys]; simplify_eq.
    destruct (wrap_argument_inr _ _ Hx) as [? ?].
    destruct (IH ys eq_refl) as [? ?]. simpl. split; by apply andb_true_iff.
Qed.

Lemma wrapUseArgs_total args :
  forallb supported_argument args = true ->
  exists args', wrapUseArgs args = inr args'.
Proof.
  intros H. apply map_throwing_total, Forall_forall. intros a Ha.
  apply wrap_argument_total. rewrite forallb_forall in H.
  apply H. by apply list_elem_of_In.
Qed.

Lemma map_throwing_first f pre x post e :
  Forall (fun y => exists z, f y = inr z) pre ->
  f x = inl e ->
  map_throwing f (pre ++ x :: post) = inl e.
Proof.
  intros Hpre Hx. induction Hpre as [|y pre [z Hz] _ IH]; simpl.
  - by rewrite Hx.
  - by rewrite Hz, IH.
Qed.

Lemma map_throwing_same f l :
  Forall (fun x => f x = inr x) l -> map_throwing f l = inr l.
Proof. induction 1 as [|x l Hx _ IH]; simpl; [done|]. by rewrite Hx, IH. Qed.

(** X2.  The error of a failed transformation is that of the first
    callable of unsupported arity in traversal order (arguments left to
    right, the elements of an array argument in order): it reports that
    callable's arity, whatever follows it. *)
Theorem X2_first_unsupported_reported pre post fn :
  forallb supported_argument pre = true ->
  supported (closure_length fn) = false ->
  wrapUseArgs (pre ++ VFunction fn :: post)
  = inl (unsupported_arity (closure_length fn))
  /\ (forall before after,
        forallb supported_element before = true ->
        wrapUseArgs (pre ++ VArray (before ++ VFunction fn :: after) :: post)
        = inl (unsupported_arity (closure_length fn))).
Proof.
  intros Hpre Hbad.
  assert (Hpre' : Forall (fun y => exists z, wrap_argument y = inr z) pre).
  { apply Forall_forall. intros a Ha. apply wrap_argument_total.
    rewrite forallb_forall in Hpre. apply Hpre. by apply list_elem_of_In. }
  split.
  - apply map_throwing_first; [done|]. simpl. by apply wrap_value_unsupported.
  - intros before after Hbefore.
    apply map_throwing_first; [done|]. simpl.
    rewrite (map_throwing_first wrap_element before (VFunction fn) after
               (unsupported_arity (closure_length fn))); [done| |].
    + apply Forall_forall. intros a Ha. apply wrap_element_total.
      rewrite forallb_forall in Hbefore. apply Hbefore.
      by apply list_elem_of_In.
    + simpl. by apply wrap_value_unsupported.
Qed.

(** X3.  The transformation succeeds exactly when every callable among
    the arguments and among the elements of array arguments has arity 2,
    3 or 4; callables nested deeper play no part. *)
Theorem X3_success_criterion args :
  (exists args', wrapUseArgs args = inr args')
  <-> forallb supported_argument args = true.
Proof.
  split.
  - intros [args' H]. by destruct (wrapUseArgs_inr _ _ H).
  - apply wrapUseArgs_total.
Qed.

(** X4.  Arguments without callables (no function, and no array holding
    one) pass through the patched [use] untouched, the empty argument
    list included: the original [use] receives the very same list. *)
Theorem X4_plain_arguments_untouched args :
  forallb plain_argument args = true ->
  wrapUseArgs args = inr args
  /\ (forall orig this w fuel,
        apply (S fuel) (PatchedUse (VFunction orig)) this args w
        = apply fuel orig this args w).
Proof.
  intros Hplain.
  assert (Hsame : wrapUseArgs args = inr args).
  { apply map_throwing_same, Forall_forall. intros a Ha.
    rewrite forallb_forall in Hplain. apply list_elem_of_In in Ha.
    specialize (Hplain a Ha). destruct a; simpl in *; try done.
    rewrite map_throwing_same; [done|].
    apply Forall_forall. intros x Hx.
    rewrite forallb_forall in Hplain. apply list_elem_of_In in Hx.
    specialize (Hplain x Hx). by destruct x. }
  split; [done|]. intros. by apply apply_PatchedUse_forward.
Qed.

(** X10.  Installing the interceptor twice on one application is not
    guarded against: [use] becomes an interceptor around an interceptor,
    and a registration through it hands the original [use] callables that
    are wrapped twice (the second transformation cannot fail). *)
Theorem X10_double_installation a use w fuel :
  heap w !! a = Some (ObjApplication use) ->
  exec fuel (andThen (setupOnce (Some a)) (setupOnce (Some a))) w
  = (Returned VUndefined,
     set_heap (<[a := ObjApplication
                   (VFunction (PatchedUse (VFunction (PatchedUse use))))]>
                 (heap w)) w)
  /\ (forall args args',
        wrapUseArgs args = inr args' ->
        exists args'',
          wrapUseArgs args' = inr args''
          /\ forall orig this w0 fuel0,
               apply (S (S fuel0))
                 (PatchedUse (VFunction (PatchedUse (VFunction orig))))
                 this args w0
               = apply fuel0 orig this args'' w0).
Proof.
  intros Ha. split.
  - unfold exec, andThen. rewrite run_bind. simpl. rewrite Ha. simpl.
    rewrite lookup_insert_eq. simpl. unfold set_heap. simpl.
    by rewrite insert_insert_eq.
  - intros args args' Hargs.
    destruct (wrapUseArgs_inr _ _ Hargs) as [_ Hsup].
    destruct (wrapUseArgs_total _ Hsup) as [args'' Hargs'].
    exists args''. split; [done|]. intros.
    rewrite (apply_PatchedUse_forward _ this args args' w0 (S fuel0) Hargs).
    by apply apply_PatchedUse_forward.
Qed.

Lemma entered2_facts l w t description :
  transaction_on l w = Some t ->
  transaction_on l (entered 2 description l w) = Some t
  /\ next_span (entered 2 description l w) = S (next_span w)
  /\ next_listener (entered 2 description l w) = S (next_listener w).
Proof.
  intros Htx. unfold entered. rewrite Htx.
  unfold transaction_on in *. simpl in *.
  unfold listener_registered, span_opened. simpl.
  unfold lookup_response in *. simpl.
  destruct (heap w !! l) as [[r|?]|] eqn:Hl; try done. simpl.
  by rewrite lookup_insert_eq.
Qed.

(** X11.  A handler of arity 2 that is wrapped twice opens two spans per
    invocation on a response with a transaction, the outer one with an
    empty description (the wrapped form is anonymous) and the inner one
    with the handler's name, and registers a "finish" listener for each. *)
Theorem X11_wrapped_twice fn this args w fuel l t :
  closure_length fn = 2 ->
  arg 1 args = VObject l ->
  transaction_on l w = Some t ->
  let s := next_span w in
  let w2 := entered 2 (closure_name fn) l (entered 2 "" l w) in
  wrap (Wrapped2 fn) = inr (Wrapped2 (Wrapped2 fn))
  /\ apply (S (S fuel)) (Wrapped2 (Wrapped2 fn)) this args w
     = apply fuel fn this args w2
  /\ events w2
     = events w ++ [EvStartChild t "" "middleware" s;
                    EvStartChild t (closure_name fn) "middleware" (S s)]
  /\ listeners_on l w2
     = listeners_on l w
       ++ [(next_listener w, ("finish", VFunction (FinishListener s)));
           (S (next_listener w),
            ("finish", VFunction (FinishListener (S s))))].
Proof.
  intros E Hres Htx s w2.
  destruct (entered2_facts l w t "" Htx) as (Htx1 & Hs1 & Hl1).
  split_and!.
  - done.
  - rewrite (apply_Wrapped2_traced (Wrapped2 fn) this args w (S fuel) l t
               Hres Htx).
    assert (Hent : listener_registered l (next_span w)
                     (span_opened t (closure_name (Wrapped2 fn)) w)
                   = entered 2 "" l w)
      by (unfold entered; by rewrite Htx).
    rewrite Hent. unfold w2. clear w2 Hent.
    set (W := entered 2 "" l w) in *.
    rewrite (apply_Wrapped2_traced fn this args W fuel l t Hres Htx1).
    unfold entered. by rewrite Htx1.
  - unfold w2. rewrite (events_entered 2 l _ t _ Htx1).
    rewrite (events_entered 2 l w t _ Htx), Hs1. by rewrite <- app_assoc.
  - unfold w2. rewrite (listeners_entered2 l _ t _ Htx1).
    rewrite (listeners_entered2 l w t _ Htx), Hs1, Hl1.
    by rewrite <- app_assoc.
Qed.

(** X12.  End to end: after [new Express({ app }).setupOnce()], a call
    [app.use(...args)] either throws the transformation's error, nothing
    being registered, or is the original [use] called on the application
    with the transformed arguments. *)
Theorem X12_setup_then_use a orig args w fuel :
  heap w !! a = Some (ObjApplication (VFunction orig)) ->
  let integration := Express_new (Some {| app := Some a |}) in
  let w1 :=
    set_heap (<[a := ObjApplication
                  (VFunction (PatchedUse (VFunction orig)))]> (heap w)) w in
  exec (S fuel) (andThen (Express_setupOnce integration) (call_use a args)) w
  = match wrapUseArgs args with
    | inl e => (Threw e, w1)
    | inr args' => apply fuel orig (VObject a) args' w1
    end.
Proof.
  intros Ha integration w1. unfold exec, andThen. rewrite run_bind.
  destruct (wrapUseArgs args) as [e|args'] eqn:Hargs;
    simpl; rewrite Ha; simpl; rewrite lookup_insert_eq; simpl;
    fold (wrapUseArgs args); rewrite Hargs; simpl.
  - done.
  - fold w1. by destruct (apply fuel orig (VObject a) args' w1) as [[] ?].
Qed.

(** X13.  Fail-open: an integration built without options, or with
    options that name no application, is called "Express" and its
    [setupOnce] only logs; a later [app.use(...args)] is the original
    [use] called with the arguments as they were given. *)
Theorem X13_no_application_fail_open options a orig args w fuel :
  options = None \/ options = Some {| app := None |} ->
  heap w !! a = Some (ObjApplication (VFunction orig)) ->
  name (Express_new options) = "Express"
  /\ exec fuel
       (andThen (Express_setupOnce (Express_new options)) (call_use a args)) w
     = apply fuel orig (VObject a) args
         (log (EvLoggerError
                 "ExpressIntegration is missing an Express instance") w).
Proof.
  intros Hopt Ha. split; [done|].
  unfold exec, andThen. rewrite run_bind.
  destruct Hopt as [-> | ->]; simpl; rewrite Ha;
    by destruct (apply fuel orig (VObject a) args _) as [[] ?].
Qed.

End Express.

(** * Instances on the sample application *)

Import Sample.

Lemma C1_no_transaction_no_span_witness :
  apply fns 5 (Wrapped3 (User 1)) self [req; VObject 1; VFunction (User 3)] w0
  = void (apply fns 4 (User 1) self
            [req; VObject 1;
             VFunction (SubstituteNext None (VFunction (User 3)))] w0)
  /\ (forall next this' args' w' n,
        apply fns (S n) (SubstituteNext None (VFunction next)) this' args' w'
        = apply fns n next this' args' w').
Proof.
  exact (C1_no_transaction_no_span fns (User 1) (Wrapped3 (User 1)) self
           [req; VObject 1; VFunction (User 3)] w0 4 1
           eq_refl eq_refl eq_refl).
Defined.

(** C1 as stated fails for arity 3: without a transaction the original
    returns 42 and its wrapped form returns [undefined]. *)
Lemma C1_counterexample :
  wrap fns (User 1) = inr (Wrapped3 (User 1))
  /\ transaction_on 1 w0 = None
  /\ (apply fns 5 (User 1) self [req; VObject 1; VFunction (User 3)] w0).1
     = Returned (VNumber 42)
  /\ (apply fns 5 (Wrapped3 (User 1)) self
        [req; VObject 1; VFunction (User 3)] w0).1
     = Returned VUndefined.
Proof. split_and!; by vm_compute. Qed.

Lemma C3_this_and_arguments_witness :
  apply fns 5 (Wrapped3 (User 7)) self
    [req; VObject 0; VFunction (User 3); VNumber 4; VNumber 5] w0
  = void (apply fns 4 (User 7) self
            [req; VObject 0;
             VFunction (SubstituteNext (Some 0) (VFunction (User 3)))]
            {| heap := heap w0;
               events := [EvStartChild 7 "echo" "middleware" 0];
               next_span := 1;
               next_listener := 0 |}).
Proof.
  exact (C3_this_and_arguments fns (User 7) (Wrapped3 (User 7)) self
           [req; VObject 0; VFunction (User 3); VNumber 4; VNumber 5] w0 4 0
           eq_refl eq_refl).
Defined.

(** C3 as stated fails for arity 3: of five invocation arguments the
    original receives three, the third being the substitute continuation
    and not the continuation that was passed. *)
Lemma C3_counterexample :
  wrap fns (User 7) = inr (Wrapped3 (User 7))
  /\ events (apply fns 5 (User 7) self
       [req; VObject 1; VFunction (User 3); VNumber 4; VNumber 5] w0).2
     = [EvOutput (VArray [self; req; VObject 1; VFunction (User 3);
                          VNumber 4; VNumber 5])]
  /\ events (apply fns 5 (Wrapped3 (User 7)) self
       [req; VObject 1; VFunction (User 3); VNumber 4; VNumber 5] w0).2
     = [EvOutput (VArray [self; req; VObject 1;
                          VFunction (SubstituteNext None (VFunction (User 3)))])].
Proof. split_and!; by vm_compute. Qed.

Lemma C5_arity2_with_transaction_witness :
  wrap fns (User 0) = inr (Wrapped2 (User 0))
  /\ apply fns 5 (Wrapped2 (User 0)) self [req; VObject 0] w0
     = apply fns 4 (User 0) self [req; VObject 0]
         {| heap := <[0 := ObjResponse
                      {| sentry_transaction := Some 7;
                         once_listeners :=
                           [(0, ("finish", VFunction (FinishListener 0)))] |}]>
                    (heap w0);
            events := [EvStartChild 7 "handler" "middleware" 0];
            next_span := 1;
            next_listener := 1 |}
  /\ (forall this' args' w' n,
        apply fns (S n) (FinishListener 0) this' args' w'
        = (Returned VUndefined, log (EvSpanFinish 0) w')).
Proof.
  exact (C5_arity2_with_transaction fns (User 0) self [req; VObject 0] w0 4 0
           {| sentry_transaction := Some 7; once_listeners := [] |} 7
           eq_refl eq_refl eq_refl eq_refl).
Defined.

Lemma C6_continuation_ordering_witness :
  apply fns 5 (Wrapped4 (User 6)) self
    [VString "boom"; req; VObject 0; VFunction (User 3)] w0
  = void (apply fns 4 (User 6) self
            [VString "boom"; req; VObject 0;
             VFunction (SubstituteNext (Some 0) (VFunction (User 3)))]
            {| heap := heap w0;
               events := [EvStartChild 7 "onError" "middleware" 0];
               next_span := 1;
               next_listener := 0 |})
  /\ (forall next this' args' w' n,
        apply fns (S n) (SubstituteNext (Some 0) (VFunction next)) this' args' w'
        = apply fns n next this' args' (log (EvSpanFinish 0) w')).
Proof.
  refine (C6_continuation_ordering fns (User 6) (Wrapped4 (User 6)) self
            [VString "boom"; req; VObject 0; VFunction (User 3)] w0 4 0 7
            eq_refl _ eq_refl eq_refl).
  simpl. lia.
Defined.

Lemma C4_unsupported_arity_witness :
  wrap fns (User 5)
  = inl (VError "Express middleware takes 2-4 arguments. Got: 1")
  /\ (forall c, wrap fns (User 5) <> inr c)
  /\ exists e,
       apply fns 5 (PatchedUse (VFunction (User 4))) (VObject 2)
         [VString "/path"; VFunction (User 0); VFunction (User 5)] w0
       = (Threw e, w0).
Proof.
  destruct (C4_unsupported_arity fns (User 5) eq_refl) as (Hwrap & Hno & Huse).
  split_and!; [exact Hwrap|exact Hno|].
  apply Huse. left. repeat constructor.
Defined.

Lemma C7_arguments_transformed_witness :
  exists args',
    wrapUseArgs fns
      [VString "/path"; VFunction (User 0);
       VArray [VFunction (User 1); VString "marker"; VFunction (User 6)]]
    = inr args'
    /\ length args' = 3
    /\ Forall2 (argument_transformed fns)
         [VString "/path"; VFunction (User 0);
          VArray [VFunction (User 1); VString "marker"; VFunction (User 6)]]
         args'
    /\ (forall orig this w fuel,
          apply fns (S fuel) (PatchedUse (VFunction orig)) this
            [VString "/path"; VFunction (User 0);
             VArray [VFunction (User 1); VString "marker"; VFunction (User 6)]]
            w
          = apply fns fuel orig this args' w).
Proof.
  exact (C7_arguments_transformed fns
           [VString "/path"; VFunction (User 0);
            VArray [VFunction (User 1); VString "marker"; VFunction (User 6)]]
           eq_refl).
Defined.

(** The list of section 8, item 6 of the specification. *)
Example wrapUseArgs_mixed :
  wrapUseArgs fns
    [VString "/path"; VFunction (User 0);
     VArray [VFunction (User 1); VString "marker"; VFunction (User 6)]]
  = inr [VString "/path"; VFunction (Wrapped2 (User 0));
         VArray [VFunction (Wrapped3 (User 1)); VString "marker";
                 VFunction (Wrapped4 (User 6))]].
Proof. reflexivity. Qed.

Lemma C8_setupOnce_witness :
  exec fns 0 (setupOnce None) w0
  = (Returned VUndefined,
     log (EvLoggerError "ExpressIntegration is missing an Express instance") w0)
  /\ heap (exec fns 0 (setupOnce None) w0).2 = heap w0
  /\ exec fns 0 (setupOnce (Some 2)) w0
     = (Returned VUndefined,
        set_heap (<[2 := ObjApplication
                      (VFunction (PatchedUse (VFunction (User 4))))]>
                    (heap w0)) w0).
Proof.
  destruct (C8_setupOnce fns w0 0) as (Hlog & Hheap & Hinstall).
  split_and!; [exact Hlog|exact Hheap|].
  exact (Hinstall 2 (VFunction (User 4)) eq_refl).
Defined.

Example setupOnce_installs :
  exec fns 0 (setupOnce (Some 2)) w0
  = (Returned VUndefined,
     set_heap (<[2 := ObjApplication
                   (VFunction (PatchedUse (VFunction (User 4))))]> (heap w0)) w0).
Proof. by vm_compute. Qed.

Lemma C9_failed_registration_witness :
  exists e,
    apply fns 5 (PatchedUse (VFunction (User 4))) (VObject 2)
      [VString "/path"; VFunction (User 0);
       VArray [VFunction (User 1); VFunction (User 5)]] w0
    = (Threw e, w0)
    /\ (forall orig, VFunction (User 4) = VFunction orig ->
          exists n, supported n = false /\ e = unsupported_arity n).
Proof.
  refine (C9_failed_registration fns (User 5)
            [VString "/path"; VFunction (User 0);
             VArray [VFunction (User 1); VFunction (User 5)]]
            (VFunction (User 4)) (VObject 2) w0 4 _ eq_refl).
  right. exists [VFunction (User 1); VFunction (User 5)].
  split; repeat constructor.
Defined.

Lemma C10_nested_arrays_untouched_witness :
  (exists elems',
      [VString "/path"; VFunction (Wrapped2 (User 0));
       VArray [VFunction (Wrapped3 (User 1));
               VArray [VFunction (User 0); VFunction (User 5)]]]
        !! 2 = Some (VArray elems')
      /\ elems' !! 1 = Some (VArray [VFunction (User 0); VFunction (User 5)]))
  /\ (forall orig this w fuel,
        apply fns (S fuel) (PatchedUse (VFunction orig)) this
          [VString "/path"; VFunction (User 0);
           VArray [VFunction (User 1);
                   VArray [VFunction (User 0); VFunction (User 5)]]] w
        = apply fns fuel orig this
            [VString "/path"; VFunction (Wrapped2 (User 0));
             VArray [VFunction (Wrapped3 (User 1));
                     VArray [VFunction (User 0); VFunction (User 5)]]] w).
Proof.
  exact (C10_nested_arrays_untouched fns
           [VString "/path"; VFunction (User 0);
            VArray [VFunction (User 1);
                    VArray [VFunction (User 0); VFunction (User 5)]]]
           _ 2 _ 1 _ eq_refl eq_refl eq_refl).
Defined.

Example handler_traced :
  apply fns 5 (Wrapped2 (User 0)) self [req; VObject 0] w0
  = (Returned (VNumber 7), w1).
Proof. by vm_compute. Qed.



(** ** Instances of the further properties *)

Lemma X1_wrap_keeps_arity_witness :
  closure_length fns (Wrapped3 (User 1)) = closure_length fns (User 1)
  /\ closure_name fns (Wrapped3 (User 1)) = ""
  /\ exists c', wrap fns (Wrapped3 (User 1)) = inr c'
                /\ closure_length fns c' = closure_length fns (User 1).
Proof. exact (X1_wrap_keeps_arity fns (User 1) (Wrapped3 (User 1)) eq_refl). Defined.

Lemma X2_first_unsupported_reported_witness :
  wrapUseArgs fns
    [VString "/path"; VFunction (User 0); VFunction (User 5); VFunction (User 3)]
  = inl (VError "Express middleware takes 2-4 arguments. Got: 1")
  /\ wrapUseArgs fns
       [VString "/path"; VFunction (User 0);
        VArray [VFunction (User 1); VFunction (User 5); VFunction (User 3)];
        VFunction (User 3)]
     = inl (VError "Express middleware takes 2-4 arguments. Got: 1").
Proof.
  destruct (X2_first_unsupported_reported fns
              [VString "/path"; VFunction (User 0)] [VFunction (User 3)]
              (User 5) eq_refl eq_refl) as [Htop Hnested].
  split; [exact Htop|].
  exact (Hnested [VFunction (User 1)] [VFunction (User 3)] eq_refl).
Defined.

Lemma X3_success_criterion_witness :
  exists args',
    wrapUseArgs fns
      [VArray [VArray [VFunction (User 5)]]; VFunction (User 0)] = inr args'.
Proof.
  apply (X3_success_criterion fns
           [VArray [VArray [VFunction (User 5)]]; VFunction (User 0)]).
  reflexivity.
Defined.

Lemma X4_plain_arguments_untouched_witness :
  wrapUseArgs fns [VString "/path"; VArray [VString "a"; VNumber 1]]
  = inr [VString "/path"; VArray [VString "a"; VNumber 1]]
  /\ (forall orig this w fuel,
        apply fns (S fuel) (PatchedUse (VFunction orig)) this
          [VString "/path"; VArray [VString "a"; VNumber 1]] w
        = apply fns fuel orig this
            [VString "/path"; VArray [VString "a"; VNumber 1]] w).
Proof.
  exact (X4_plain_arguments_untouched fns
           [VString "/path"; VArray [VString "a"; VNumber 1]] eq_refl).
Defined.

Lemma X5_missing_response_witness :
  apply fns 5 (Wrapped2 (User 0)) self [req] w0 = (Threw VTypeError, w0).
Proof.
  refine (X5_missing_response fns (User 0) (Wrapped2 (User 0)) self [req] w0 4
            eq_refl _).
  left. reflexivity.
Defined.

Lemma X6_errors_propagate_witness :
  apply fns 5 (Wrapped3 (User 1)) self [req; VObject 0] w0
  = (Threw VTypeError,
     {| heap := heap w0;
        events := [EvStartChild 7 "mw" "middleware" 0; EvSpanFinish 0];
        next_span := 1;
        next_listener := 0 |})
  /\ apply fns 5 (SubstituteNext (Some 0) (VFunction (User 1))) self [] w0
     = (Threw VTypeError, log (EvSpanFinish 0) w0)
  /\ apply fns 5 (PatchedUse (VFunction (User 1))) self [VString "/path"] w0
     = (Threw VTypeError, w0).
Proof.
  split_and!.
  - refine (proj1 (X6_errors_propagate fns VTypeError _)
              (User 1) (Wrapped3 (User 1)) self [req; VObject 0] w0 4 0
              eq_refl eq_refl _).
    by vm_compute.
  - refine (proj1 (proj2 (X6_errors_propagate fns VTypeError _))
              (Some 0) (User 1) self [] w0 4 _).
    by vm_compute.
  - refine (proj2 (proj2 (X6_errors_propagate fns VTypeError _))
              (User 1) self [VString "/path"] [VString "/path"] w0 4
              eq_refl _).
    by vm_compute.
Defined.

Lemma X7_continuation_not_callable_witness :
  apply fns 5 (SubstituteNext (Some 0) VUndefined) self [] w0
  = (Threw VTypeError, log (EvSpanFinish 0) w0).
Proof.
  exact (X7_continuation_not_callable fns (Some 0) VUndefined self [] w0 4
           eq_refl).
Defined.

Lemma echo_passive this args : passive (code fns (User 7) this args).
Proof. apply passive_Do; [done|]. intros _. apply passive_Ret. Qed.

Lemma handler_passive this args : passive (code fns (User 0) this args).
Proof. apply passive_Do; [done|]. intros _. apply passive_Ret. Qed.

Lemma X8_span_left_open_witness :
  exists o w' evs,
    apply fns 5 (Wrapped3 (User 7)) self
      [req; VObject 0; VFunction (User 3)] w0 = (o, w')
    /\ o <> OutOfFuel
    /\ events w' = EvStartChild 7 "echo" "middleware" 0 :: evs
    /\ (forall s, count_finish s evs = 0).
Proof.
  refine (X8_span_left_open fns (User 7) (Wrapped3 (User 7)) self
            [req; VObject 0; VFunction (User 3)] w0 3 0 7
            eq_refl _ eq_refl eq_refl echo_passive).
  simpl. lia.
Defined.

Lemma X9_handler_span_finished_once_witness :
  exists o w1' w2,
    apply fns 5 (Wrapped2 (User 0)) self [req; VObject 0] w0 = (o, w1')
    /\ o <> OutOfFuel
    /\ exec fns 4 (emit_times 2 0 "finish") w1' = (Returned VUndefined, w2)
    /\ count_finish 0 (events w2) = 1.
Proof.
  exact (X9_handler_span_finished_once fns (User 0) self [req; VObject 0] w0
           3 0 7 2 eq_refl eq_refl eq_refl eq_refl handler_passive).
Defined.

Lemma X10_double_installation_witness :
  exec fns 0 (andThen (setupOnce (Some 2)) (setupOnce (Some 2))) w0
  = (Returned VUndefined,
     set_heap
       (<[2 := ObjApplication
               (VFunction
                  (PatchedUse (VFunction (PatchedUse (VFunction (User 4))))))]>
          (heap w0)) w0)
  /\ exists args'',
       wrapUseArgs fns [VString "/path"; VFunction (Wrapped2 (User 0))]
       = inr args''
       /\ forall orig this w fuel,
            apply fns (S (S fuel))
              (PatchedUse (VFunction (PatchedUse (VFunction orig))))
              this [VString "/path"; VFunction (User 0)] w
            = apply fns fuel orig this args'' w.
Proof.
  destruct (X10_double_installation fns 2 (VFunction (User 4)) w0 0 eq_refl)
    as [Hinstall Huse].
  split; [exact Hinstall|].
  exact (Huse [VString "/path"; VFunction (User 0)]
           [VString "/path"; VFunction (Wrapped2 (User 0))] eq_refl).
Defined.

Example use_through_two_interceptors :
  wrapUseArgs fns [VString "/path"; VFunction (Wrapped2 (User 0))]
  = inr [VString "/path"; VFunction (Wrapped2 (Wrapped2 (User 0)))].
Proof. reflexivity. Qed.

Lemma X11_wrapped_twice_witness :
  wrap fns (Wrapped2 (User 0)) = inr (Wrapped2 (Wrapped2 (User 0)))
  /\ apply fns 5 (Wrapped2 (Wrapped2 (User 0))) self [req; VObject 0] w0
     = apply fns 3 (User 0) self [req; VObject 0]
         (entered 2 "handler" 0 (entered 2 "" 0 w0))
  /\ events (entered 2 "handler" 0 (entered 2 "" 0 w0))
     = [EvStartChild 7 "" "middleware" 0;
        EvStartChild 7 "handler" "middleware" 1]
  /\ listeners_on 0 (entered 2 "handler" 0 (entered 2 "" 0 w0))
     = [(0, ("finish", VFunction (FinishListener 0)));
        (1, ("finish", VFunction (FinishListener 1)))].
Proof.
  exact (X11_wrapped_twice fns (User 0) self [req; VObject 0] w0 3 0 7
           eq_refl eq_refl eq_refl).
Defined.

Lemma X12_setup_then_use_witness :
  exec fns 5
    (andThen (Express_setupOnce (Express_new (Some {| app := Some 2 |})))
       (call_use 2 [VString "/path"; VFunction (User 0)])) w0
  = apply fns 4 (User 4) (VObject 2)
      [VString "/path"; VFunction (Wrapped2 (User 0))]
      (set_heap (<[2 := ObjApplication
                     (VFunction (PatchedUse (VFunction (User 4))))]>
                   (heap w0)) w0).
Proof.
  exact (X12_setup_then_use fns 2 (User 4)
           [VString "/path"; VFunction (User 0)] w0 4 eq_refl).
Defined.

Lemma X13_no_application_fail_open_witness :
  name (Express_new None) = "Express"
  /\ exec fns 5
       (andThen (Express_setupOnce (Express_new None))
          (call_use 2 [VString "/path"; VFunction (User 0)])) w0
     = apply fns 5 (User 4) (VObject 2) [VString "/path"; VFunction (User 0)]
         (log (EvLoggerError
                 "ExpressIntegration is missing an Express instance") w0).
Proof.
  refine (X13_no_application_fail_open fns None 2 (User 4)
            [VString "/path"; VFunction (User 0)] w0 5 _ eq_refl).
  left. reflexivity.
Defined.




